(** * Movie client core: catalog fetch, search telemetry, trending, fetch hook

  A shallow embedding of [services/api.ts], [services/appwrite.ts] and
  [services/useFetch.ts], followed by the properties their specification
  states about them.

  Conventions of the embedding.
  - A JavaScript string is the Rocq string of the bytes of its generalized
    UTF-8 form: well-formed text is its UTF-8 bytes, and an unpaired
    surrogate (U+D800 to U+DFFF), which a JavaScript string can hold, is
    the three bytes ED, A0..BF, 80..BF.
  - A JavaScript number that holds an identifier or a counter is the
    integer [Z] it holds. Such a number is a double: the [+ 1] of the code
    is the addition of doubles, exact below 2^53 and rounded to the nearest
    double, ties to even, from there on ([Js.plus_1]).
  - An [async] function is a computation over an explicit world: it returns
    a completion (normal value or thrown value) and the world it leaves.
    One call runs from its first to its last step without another call in
    between, which is the sequential reading of the specification. *)

From Stdlib Require Import ZArith List String Ascii Bool Arith Lia.
From Stdlib Require Import Sorting.Sorted Sorting.Permutation.
From Stdlib Require Floats.PrimFloat Numbers.Cyclic.Int63.Uint63.
Import ListNotations.
Local Open Scope string_scope.

(* ================================================================= *)
(** ** JavaScript values that can be thrown, and completions *)

Module Js.

(** An instance of [Error] (or of a subclass, told apart by [name]). *)
Record JsError := mkError { name : string; message : string }.

(** [new Error(msg)] *)
Definition new_Error (msg : string) : JsError :=
  {| name := "Error"; message := msg |}.

(** Values that are not instances of [Error] but can still be thrown or
    used as a rejection reason. *)
Inductive NonError :=
| ThrownString (s : string)                  (* throw "text" *)
| ThrownObject (message_prop : option string) (* throw { message?: ... } *)
| ThrownUndefined.                            (* Promise.reject() *)

Inductive JsThrown :=
| IsError (e : JsError)
| NotError (v : NonError).

(** [err instanceof Error], returning the instance when it is one. *)
Definition instanceof_Error (err : JsThrown) : option JsError :=
  match err with
  | IsError e => Some e
  | NotError _ => None
  end.

(** The [message] property of a thrown value, [None] for [undefined]. *)
Definition message_of (err : JsThrown) : option string :=
  match err with
  | IsError e => Some (message e)
  | NotError (ThrownObject m) => m
  | NotError (ThrownString _) => None
  | NotError ThrownUndefined => None
  end.

(** How a call ends. *)
Inductive Completion (A : Type) :=
| Normal (a : A)
| Throw (e : JsThrown).
Arguments Normal {A} a.
Arguments Throw {A} e.

(** An asynchronous computation over a world [W]. *)
Definition Async (W A : Type) : Type := W -> Completion A * W.

Definition ret {W A} (a : A) : Async W A := fun w => (Normal a, w).

Definition throw {W A} (e : JsThrown) : Async W A := fun w => (Throw e, w).

(** [const x = await c; k x]: a throw of [c] skips [k]. *)
Definition bind {W A B} (c : Async W A) (k : A -> Async W B) : Async W B :=
  fun w =>
    match c w with
    | (Normal a, w') => k a w'
    | (Throw e, w') => (Throw e, w')
    end.

(** [try { body } catch (err) { handler err }] *)
Definition try_catch {W A} (body : Async W A) (handler : JsThrown -> Async W A)
  : Async W A :=
  fun w =>
    match body w with
    | (Normal a, w') => (Normal a, w')
    | (Throw e, w') => handler e w'
    end.

(** Truthiness of a string: only the empty string is falsy. *)
Definition truthy (s : string) : bool :=
  match s with
  | EmptyString => false
  | String _ _ => true
  end.

(** [x + 1] on a number that holds the integer [x]: the sum of doubles,
    rounded to the nearest double, ties to the even one. A double holds
    every integer of magnitude up to 2^53, so for [x] from -2^53 to
    2^53 - 1 the sum is exact. From 2^53 to 2^54 in magnitude a double
    holds the even integers only: [x + 1] lies halfway between [x] and
    [x + 2] and goes to the one whose half is even (at 2^53 back to 2^53).
    From 2^54 on the doubles are 4 or more apart and the sum goes back to
    [x]. *)
Definition plus_1 (x : Z) : Z :=
  if ((- 2 ^ 53 <=? x) && (x <? 2 ^ 53))%Z then (x + 1)%Z
  else if (Z.abs x <? 2 ^ 54)%Z then
    (if (x mod 4 =? 0)%Z then x else (x + 2)%Z)
  else x.

End Js.

Import Js.

Notation "x <- c ;; k" := (bind c (fun x => k))
  (at level 61, c at next level, right associativity).

(* ================================================================= *)
(** ** services/api.ts: the remote catalog client *)

Module Api.

(** Decoded JSON. A number keeps its literal: the client never computes
    with it. An object is the field list of the decoded value. *)
#[warnings="-register-all"]
Inductive Json :=
| JNull
| JBool (b : bool)
| JNum (literal : string)
| JStr (s : string)
| JArr (items : list Json)
| JObj (fields : list (string * Json)).

(** A JavaScript value as [fetchMovies] can return it: [None] is
    [undefined]. *)
Definition JsValue := option Json.

Fixpoint assoc (key : string) (fields : list (string * Json)) : option Json :=
  match fields with
  | [] => None
  | (k, v) :: rest => if String.eqb k key then Some v else assoc key rest
  end.

(** [data.results]: reading a property of [null] throws a [TypeError];
    a missing property, or a property of a primitive or of an array,
    reads as [undefined]. The wording of the [TypeError] depends on the
    engine. *)
Definition get_results {W} (data : Json) : Async W JsValue :=
  match data with
  | JNull =>
      throw (IsError {| name := "TypeError";
                        message := "Cannot read property 'results' of null" |})
  | JObj fields => ret (assoc "results" fields)
  | JBool _ | JNum _ | JStr _ | JArr _ => ret None
  end.

(** *** [encodeURIComponent] *)

Definition is_alnum (c : ascii) : bool :=
  let n := nat_of_ascii c in
  (((65 <=? n) && (n <=? 90)) || ((97 <=? n) && (n <=? 122))
   || ((48 <=? n) && (n <=? 57)))%nat.

Definition marks : list ascii :=
  ["-"; "_"; "."; "!"; "~"; "*"; "'"; "("; ")"]%char.

(** The characters [encodeURIComponent] leaves as they are. *)
Definition unreserved (c : ascii) : bool :=
  is_alnum c || existsb (Ascii.eqb c) marks.

Definition hex_digit (n : nat) : ascii :=
  nth n ["0"; "1"; "2"; "3"; "4"; "5"; "6"; "7"; "8"; "9";
         "A"; "B"; "C"; "D"; "E"; "F"]%char "0"%char.

Definition percent_encode (c : ascii) : string :=
  let n := nat_of_ascii c in
  String "%" (String (hex_digit (n / 16)) (String (hex_digit (n mod 16)) "")).

(** Every byte of the UTF-8 form that is not unreserved becomes [%XX]. *)
Fixpoint escape (s : string) : string :=
  match s with
  | EmptyString => EmptyString
  | String c rest =>
      if unreserved c then String c (escape rest)
      else percent_encode c ++ escape rest
  end.

(** The string holds an unpaired surrogate: the byte ED followed by a byte
    from A0 to BF. *)
Fixpoint has_lone_surrogate (s : string) : bool :=
  match s with
  | EmptyString => false
  | String c rest =>
      match rest with
      | EmptyString => false
      | String d _ =>
          (Ascii.eqb c "237"
           && ((160 <=? nat_of_ascii d) && (nat_of_ascii d <=? 191))%nat)
          || has_lone_surrogate rest
      end
  end.

Definition URIError : JsThrown :=
  IsError {| name := "URIError"; message := "URI malformed" |}.

(** [encodeURIComponent(s)]: it throws a [URIError] for a string that
    holds an unpaired surrogate and escapes the UTF-8 form of any other. *)
Definition encodeURIComponent {W} (s : string) : Async W string :=
  if has_lone_surrogate s then throw URIError else ret (escape s).

(** *** Configuration *)

Record Headers := { accept : string; Authorization : string }.

Record Config :=
  { BASE_URL : string; API_KEY : option string; headers : Headers }.

(** A template literal prints an undefined environment variable as
    the text [undefined]. *)
Definition template (v : option string) : string :=
  match v with
  | Some s => s
  | None => "undefined"
  end.

(** [TMDB_CONFIG], for the value [key] of
    [process.env.EXPO_PUBLIC_MOVEIE_API_KEY]. *)
Definition TMDB_CONFIG (key : option string) : Config :=
  {| BASE_URL := "https://api.themoviedb.org/3";
     API_KEY := key;
     headers := {| accept := "application/json";
                   Authorization := "Bearer " ++ template key |} |}.

(** *** Transport *)

Record Request :=
  { url : string; method : string; request_headers : Headers }.

Record Response :=
  { status : Z;
    statusText : string;
    json : Completion Json (* what [response.json()] settles to *) }.

(** [response.ok]: the status is in the range 200-299. *)
Definition ok (r : Response) : bool :=
  (200 <=? status r)%Z && (status r <=? 299)%Z.

(** The network as the client sees it: the environment variable, what the
    remote end answers to a request, and the requests issued so far. *)
Record Net :=
  { env_key : option string;
    server : Request -> Completion Response;
    sent : list Request }.

(** [fetch(endpoint, init)] *)
Definition fetch (req : Request) : Async Net Response :=
  fun n =>
    (server n req,
     {| env_key := env_key n; server := server n; sent := sent n ++ [req] |}).

Definition await_json (r : Response) : Async Net Json :=
  fun n => (json r, n).

Definition fetchMovies (query : string) : Async Net JsValue :=
  fun n =>
    let cfg := TMDB_CONFIG (env_key n) in
    (endpoint <- (if truthy query then
                    encoded <- encodeURIComponent query ;;
                    ret (BASE_URL cfg ++ "/search/movie?query=" ++ encoded)
                  else
                    ret (BASE_URL cfg
                           ++ "/discover/movie?sort_by=popularity.desc")) ;;
     response <- fetch {| url := endpoint;
                          method := "GET";
                          request_headers := headers cfg |} ;;
     if negb (ok response) then
       throw (IsError (new_Error ("Failed to fetch movies: "
                                    ++ statusText response)))
     else
       data <- await_json response ;;
       get_results data) n.

(** *** Vocabulary of the specification *)

Definition search_endpoint (cfg : Config) (query : string) : string :=
  BASE_URL cfg ++ "/search/movie?query=" ++ escape query.

Definition discover_endpoint (cfg : Config) : string :=
  BASE_URL cfg ++ "/discover/movie?sort_by=popularity.desc".

(** The endpoint of a query, where the query can be encoded. *)
Definition endpoint_of (cfg : Config) (query : string) : string :=
  if truthy query then search_endpoint cfg query else discover_endpoint cfg.

(** The request [fetchMovies] hands to [fetch] when it gets that far, that
    is for a query without unpaired surrogate. *)
Definition issued_request (query : string) (n : Net) : Request :=
  let cfg := TMDB_CONFIG (env_key n) in
  {| url := endpoint_of cfg query;
     method := "GET";
     request_headers := headers cfg |}.

(** The network after one more request. *)
Definition after_request (req : Request) (n : Net) : Net :=
  {| env_key := env_key n; server := server n; sent := sent n ++ [req] |}.

(** [data.results] where reading it does not throw. *)
Definition results_property (data : Json) : JsValue :=
  match data with
  | JObj fields => assoc "results" fields
  | _ => None
  end.

(** The one UTF-16 code unit D800, a high surrogate without its pair. *)
Definition lone_surrogate : string :=
  String "237" (String "160" (String "128" EmptyString)).

(** A network whose remote end gives the same answer to every request. *)
Definition net_answering (answer : Completion Response) : Net :=
  {| env_key := Some "secret"; server := fun _ => answer; sent := [] |}.

(** A success response whose body is the JSON object without fields. *)
Definition empty_object_response : Response :=
  {| status := 200; statusText := "OK"; json := Normal (JObj []) |}.

Definition not_found_response : Response :=
  {| status := 404; statusText := "Not Found"; json := Normal JNull |}.

(** A success response whose body is not JSON. *)
Definition garbled_response : Response :=
  {| status := 200; statusText := "OK";
     json := Throw (IsError {| name := "SyntaxError";
                               message := "JSON Parse error" |}) |}.

(** [contains needle hay]: [needle] occurs in [hay]. *)
Fixpoint contains (needle hay : string) : bool :=
  String.prefix needle hay
  || match hay with
     | EmptyString => false
     | String _ rest => contains needle rest
     end.

(** The shape the client expects of a decoded body: an object whose
    [results] field holds a sequence. *)
Definition expected_shape (data : Json) : bool :=
  match data with
  | JObj fields =>
      match assoc "results" fields with
      | Some (JArr _) => true
      | _ => false
      end
  | _ => false
  end.

(** The body of a response decodes into the expected shape. *)
Definition decodes_to_expected_shape (r : Response) : bool :=
  match json r with
  | Normal data => expected_shape data
  | Throw _ => false
  end.

(** Characters with a meaning of their own inside a query string. *)
Definition uri_delimiter (c : ascii) : bool :=
  existsb (Ascii.eqb c) ["&"; "="; "?"; "#"; "/"; " "; "+"]%char.

End Api.

(* ================================================================= *)
(** ** services/appwrite.ts: search telemetry and trending *)

(** Modelled from the spec: the declaration of [Movie] (the catalog item),
    which the sources use but do not contain. Only the fields the telemetry
    code reads are kept: an integer identifier, a title and an optional
    poster path ([None] is [null] or [undefined]). *)
Module Movie.

Record t := { id : Z; title : string; poster_path : option string }.

End Movie.

(** Modelled from the spec: the remote document store (the Appwrite
    database service), an external collaborator known to the sources only
    through [listDocuments], [createDocument] and [updateDocument]. The
    model is the contract of section 6 of the specification: a collection of
    documents with an identity each, queried by an equality filter and by
    order and limit clauses, created under a generated identity, and updated
    by identity with a partial field map; each remote call can fail. *)
Module Store.

Record Document :=
  { dollar_id : nat;            (* $id *)
    searchTerm : string;
    movie_id : Z;
    title : string;
    count : option Z;           (* [None]: missing or null *)
    poster_url : option string  (* [None]: null *) }.

(** The value of a document attribute. *)
Inductive Value :=
| VNull
| VInt (z : Z)
| VText (s : string).

Inductive Attribute :=
| A_searchTerm
| A_movie_id
| A_title
| A_count
| A_poster_url.

(** The attributes of the collection by name. *)
Definition attribute_named (a : string) : option Attribute :=
  if String.eqb a "searchTerm" then Some A_searchTerm
  else if String.eqb a "movie_id" then Some A_movie_id
  else if String.eqb a "title" then Some A_title
  else if String.eqb a "count" then Some A_count
  else if String.eqb a "poster_url" then Some A_poster_url
  else None.

Definition of_option {A} (f : A -> Value) (o : option A) : Value :=
  match o with
  | Some a => f a
  | None => VNull
  end.

Definition attribute_value (a : Attribute) (d : Document) : Value :=
  match a with
  | A_searchTerm => VText (searchTerm d)
  | A_movie_id => VInt (movie_id d)
  | A_title => VText (title d)
  | A_count => of_option VInt (count d)
  | A_poster_url => of_option VText (poster_url d)
  end.

Definition value_eqb (x y : Value) : bool :=
  match x, y with
  | VNull, VNull => true
  | VInt a, VInt b => (a =? b)%Z
  | VText a, VText b => String.eqb a b
  | _, _ => false
  end.

(** The order of values: null below every integer, integers by size and
    below every text, texts in dictionary order. *)
Definition value_leb (x y : Value) : bool :=
  match x, y with
  | VNull, _ => true
  | VInt _, VNull => false
  | VInt a, VInt b => (a <=? b)%Z
  | VInt _, VText _ => true
  | VText _, VNull => false
  | VText _, VInt _ => false
  | VText a, VText b => String.leb a b
  end.

(** [Query.equal], [Query.limit], [Query.orderDesc] *)
Inductive Query :=
| Query_equal (attribute : string) (value : Value)
| Query_limit (n : nat)
| Query_orderDesc (attribute : string).

(** The documents every equality filter of the query list keeps; [None]
    when a filter names no attribute of the collection. *)
Fixpoint apply_filters (queries : list Query) (docs : list Document)
  : option (list Document) :=
  match queries with
  | [] => Some docs
  | Query_equal a v :: rest =>
      match attribute_named a with
      | Some attr =>
          apply_filters rest
            (filter (fun d => value_eqb (attribute_value attr d) v) docs)
      | None => None
      end
  | _ :: rest => apply_filters rest docs
  end.

(** Insertion before the first document whose key is not above the key of
    [x]: documents with equal keys keep the order they had. *)
Fixpoint insert_desc (key : Document -> Value) (x : Document)
  (l : list Document) : list Document :=
  match l with
  | [] => [x]
  | y :: rest =>
      if value_leb (key y) (key x) then x :: y :: rest
      else y :: insert_desc key x rest
  end.

Definition sort_desc (key : Document -> Value) (l : list Document)
  : list Document :=
  fold_right (insert_desc key) [] l.

(** The order a descending sort by [key] establishes between neighbours. *)
Definition descending (key : Document -> Value) (a b : Document) : Prop :=
  value_leb (key b) (key a) = true.

(** The first order clause of the query list decides the order. *)
Fixpoint apply_order (queries : list Query) (docs : list Document)
  : option (list Document) :=
  match queries with
  | [] => Some docs
  | Query_orderDesc a :: _ =>
      match attribute_named a with
      | Some attr => Some (sort_desc (attribute_value attr) docs)
      | None => None
      end
  | _ :: rest => apply_order rest docs
  end.

(** The first limit clause of the query list cuts the result. *)
Fixpoint apply_limit (queries : list Query) (docs : list Document)
  : list Document :=
  match queries with
  | [] => docs
  | Query_limit n :: _ => firstn n docs
  | _ :: rest => apply_limit rest docs
  end.

(** Filter, then order, then limit, wherever the clauses stand in the
    list. *)
Definition select (queries : list Query) (docs : list Document)
  : option (list Document) :=
  match apply_filters queries docs with
  | Some kept =>
      match apply_order queries kept with
      | Some ordered => Some (apply_limit queries ordered)
      | None => None
      end
  | None => None
  end.

(** What happens to the next remote call: it is served, it is refused
    before it takes effect, or it takes effect and its reply is lost. *)
Inductive Outcome :=
| Served
| Refused (e : JsThrown)
| ReplyLost (e : JsThrown).

(** One line of [console.error]. *)
Record LogEntry := { label : option string; logged : JsThrown }.

Record World :=
  { collection : list Document;
    upcoming : list Outcome;   (* outcomes of the next calls; then served *)
    console : list LogEntry }.

Definition next_outcome (w : World) : Outcome * list Outcome :=
  match upcoming w with
  | [] => (Served, [])
  | o :: rest => (o, rest)
  end.

Definition AppwriteException (msg : string) : JsThrown :=
  IsError {| name := "AppwriteException"; message := msg |}.

(** The result of [listDocuments]. *)
Record DocumentList := { total : nat; documents : list Document }.

Definition listDocuments (queries : list Query) : Async World DocumentList :=
  fun w =>
    let (o, rest) := next_outcome w in
    let w' := {| collection := collection w; upcoming := rest;
                 console := console w |} in
    match o with
    | Served =>
        match select queries (collection w) with
        | Some docs =>
            (Normal {| total := List.length docs; documents := docs |}, w')
        | None => (Throw (AppwriteException "Invalid query"), w')
        end
    | Refused e | ReplyLost e => (Throw e, w')
    end.

(** The field map of [createDocument]. *)
Module Data.
Record t :=
  { searchTerm : string;
    movie_id : Z;
    title : string;
    count : Z;
    poster_url : option string }.
End Data.

(** The partial field map of [updateDocument]: [None] leaves a field as
    it is. *)
Module Partial.
Record t :=
  { searchTerm : option string;
    movie_id : option Z;
    title : option string;
    count : option Z;
    poster_url : option (option string) }.
End Partial.

(** [ID.unique()], or an identity chosen by the caller. *)
Inductive ID :=
| ID_unique
| ID_custom (n : nat).

Definition has_id (i : nat) (d : Document) : bool := (dollar_id d =? i)%nat.

(** An identity no document of the collection has. *)
Definition fresh_id (docs : list Document) : nat :=
  S (fold_right Nat.max 0 (map dollar_id docs)).

Definition new_document (i : nat) (data : Data.t) : Document :=
  {| dollar_id := i;
     searchTerm := Data.searchTerm data;
     movie_id := Data.movie_id data;
     title := Data.title data;
     count := Some (Data.count data);
     poster_url := Data.poster_url data |}.

Definition override {A} (new : option A) (old : A) : A :=
  match new with
  | Some a => a
  | None => old
  end.

Definition apply_partial (p : Partial.t) (d : Document) : Document :=
  {| dollar_id := dollar_id d;
     searchTerm := override (Partial.searchTerm p) (searchTerm d);
     movie_id := override (Partial.movie_id p) (movie_id d);
     title := override (Partial.title p) (title d);
     count := match Partial.count p with
              | Some c => Some c
              | None => count d
              end;
     poster_url := override (Partial.poster_url p) (poster_url d) |}.

Definition createDocument (i : ID) (data : Data.t) : Async World Document :=
  fun w =>
    let (o, rest) := next_outcome w in
    let unchanged := {| collection := collection w; upcoming := rest;
                        console := console w |} in
    let chosen := match i with
                  | ID_unique => fresh_id (collection w)
                  | ID_custom n => n
                  end in
    let d := new_document chosen data in
    let written := {| collection := collection w ++ [d]; upcoming := rest;
                      console := console w |} in
    match o with
    | Refused e => (Throw e, unchanged)
    | Served | ReplyLost _ =>
        if existsb (has_id chosen) (collection w) then
          (Throw (AppwriteException "Document already exists"), unchanged)
        else
          match o with
          | ReplyLost e => (Throw e, written)
          | _ => (Normal d, written)
          end
    end.

Definition updateDocument (i : nat) (p : Partial.t) : Async World Document :=
  fun w =>
    let (o, rest) := next_outcome w in
    let unchanged := {| collection := collection w; upcoming := rest;
                        console := console w |} in
    let written :=
      {| collection :=
           map (fun d => if has_id i d then apply_partial p d else d)
               (collection w);
         upcoming := rest;
         console := console w |} in
    match o with
    | Refused e => (Throw e, unchanged)
    | Served | ReplyLost _ =>
        match find (has_id i) (collection w) with
        | None => (Throw (AppwriteException "Document not found"), unchanged)
        | Some d =>
            match o with
            | ReplyLost e => (Throw e, written)
            | _ => (Normal (apply_partial p d), written)
            end
        end
    end.

(** [console.error(label, err)] *)
Definition console_error (l : option string) (err : JsThrown)
  : Async World unit :=
  fun w =>
    (Normal tt,
     {| collection := collection w; upcoming := upcoming w;
        console := console w ++ [{| label := l; logged := err |}] |}).

End Store.

Module Appwrite.

Import Store.

(** [x || 0] on a counter: a missing counter and [0] are falsy. *)
Definition or_0 (x : option Z) : Z :=
  match x with
  | Some n => if (n =? 0)%Z then 0%Z else n
  | None => 0%Z
  end.

Definition image_base : string := "https://image.tmdb.org/t/p/w500".

(** [movie.poster_path ? `${base}${movie.poster_path}` : null]: a missing
    path and the empty path are falsy. *)
Definition poster_url_of (movie : Movie.t) : option string :=
  match Movie.poster_path movie with
  | Some path => if truthy path then Some (image_base ++ path) else None
  | None => None
  end.

Definition only_count (c : Z) : Partial.t :=
  {| Partial.searchTerm := None;
     Partial.movie_id := None;
     Partial.title := None;
     Partial.count := Some c;
     Partial.poster_url := None |}.

Definition first_search (query : string) (movie : Movie.t) : Data.t :=
  {| Data.searchTerm := query;
     Data.movie_id := Movie.id movie;
     Data.title := Movie.title movie;
     Data.count := 1;
     Data.poster_url := poster_url_of movie |}.

(** The [try] block of [updateSearchCount]. Reading [$id] of an absent
    [documents[0]] would throw a [TypeError]. *)
Definition updateSearchCount_try (query : string) (movie : Movie.t)
  : Async World unit :=
  result <- listDocuments [Query_equal "searchTerm" (VText query)] ;;
  if (0 <? List.length (documents result))%nat then
    match nth_error (documents result) 0 with
    | Some existingMovie =>
        _ <- updateDocument (dollar_id existingMovie)
               (only_count (plus_1 (or_0 (count existingMovie)))) ;;
        ret tt
    | None =>
        throw (IsError {| name := "TypeError";
                          message := "Cannot read property '$id' of undefined" |})
    end
  else
    _ <- createDocument ID_unique (first_search query movie) ;;
    ret tt.

Definition updateSearchCount (query : string) (movie : Movie.t)
  : Async World unit :=
  try_catch (updateSearchCount_try query movie)
            (fun err => console_error (Some "记录搜索失败:") err).

(** [getTrendingMovies]: [None] is [undefined]. *)
Definition getTrendingMovies : Async World (option (list Document)) :=
  try_catch
    (result <- listDocuments [Query_limit 5; Query_orderDesc "count"] ;;
     ret (Some (documents result)))
    (fun error => _ <- console_error None error ;; ret None).

(** *** Vocabulary of the specification *)

(** The SearchRecords of a term: exact match on [searchTerm]. *)
Definition records_for (t : string) (docs : list Document) : list Document :=
  filter (fun d => String.eqb (searchTerm d) t) docs.


(** Identities are unique in the collection. *)
Definition ids_unique (docs : list Document) : Prop :=
  NoDup (map dollar_id docs).


(** The next [n] remote calls are served. *)
Definition served_next (n : nat) (w : World) : bool :=
  forallb (fun o => match o with Served => true | _ => false end)
          (firstn n (upcoming w)).

(** [a] does not stand below [b] in the order of counters, a missing
    counter standing lowest. *)
Definition count_ge (a b : Document) : Prop :=
  match count b, count a with
  | None, _ => True
  | Some _, None => False
  | Some cb, Some ca => (cb <= ca)%Z
  end.

(** The operations of the telemetry core on the store. *)
Inductive Operation :=
| RecordSearch (term : string) (subject : Movie.t)
| GetTrending.

Definition perform (op : Operation) (w : World) : World :=
  match op with
  | RecordSearch term subject => snd (updateSearchCount term subject w)
  | GetTrending => snd (getTrendingMovies w)
  end.

Definition perform_all (ops : list Operation) (w : World) : World :=
  fold_left (fun w op => perform op w) ops w.

(** The collection after [updateDocument] wrote the counter [c] under the
    identity [i]. *)
Definition with_count (i : nat) (c : Z) (docs : list Document)
  : list Document :=
  map (fun x => if has_id i x then apply_partial (only_count c) x else x)
      docs.

(** The [console.error] line of [updateSearchCount]. *)
Definition search_failure (err : JsThrown) : LogEntry :=
  {| label := Some "记录搜索失败:"; logged := err |}.

(** The outcome is a failure with the thrown value [e]. *)
Definition fails_with (o : Outcome) (e : JsThrown) : Prop :=
  o = Refused e \/ o = ReplyLost e.

(** A world whose store holds [docs] and serves every call. *)
Definition calm (docs : list Document) : World :=
  {| collection := docs; upcoming := []; console := [] |}.

(** A world whose store holds [docs] and whose next calls end as [os]. *)
Definition troubled (os : list Outcome) (docs : list Document) : World :=
  {| collection := docs; upcoming := os; console := [] |}.

Definition avatar : Movie.t :=
  {| Movie.id := 19995; Movie.title := "Avatar";
     Movie.poster_path := Some "/avatar.jpg" |}.

(** A catalog item whose poster path is the empty text. *)
Definition blank_poster : Movie.t :=
  {| Movie.id := 7; Movie.title := "Untitled";
     Movie.poster_path := Some "" |}.

(** The store after the first search of the term [Avatar]. *)
Definition searched_once : World :=
  snd (updateSearchCount "Avatar" avatar (calm [])).

Definition timeout : JsThrown := AppwriteException "Network request failed".

(** A record whose counter has reached 2^53. *)
Definition worn_record : Document :=
  {| dollar_id := 1; searchTerm := "Avatar"; movie_id := 19995;
     title := "Avatar"; count := Some (2 ^ 53)%Z; poster_url := None |}.

(** Seven records with counters 3, 9, missing, 1, 9, 4 and 7. *)
Definition seven_records : list Document :=
  map (fun p : nat * option Z =>
         {| dollar_id := fst p; searchTerm := "term";
            movie_id := Z.of_nat (fst p); title := "title";
            count := snd p; poster_url := None |})
      [(1, Some 3%Z); (2, Some 9%Z); (3, None); (4, Some 1%Z);
       (5, Some 9%Z); (6, Some 4%Z); (7, Some 7%Z)].

(** Two records agree on everything but the counter. *)
Definition same_but_count (x x' : Document) : Prop :=
  dollar_id x' = dollar_id x /\ searchTerm x' = searchTerm x
  /\ movie_id x' = movie_id x /\ title x' = title x
  /\ poster_url x' = poster_url x.

End Appwrite.

(* ================================================================= *)
(** ** services/useFetch.ts: the fetch hook *)

Module UseFetch.

(** The three [useState] cells of the hook. *)
Record FetchState (T : Type) :=
  { data : option T; loading : bool; error : option JsError }.
Arguments data {T} _.
Arguments loading {T} _.
Arguments error {T} _.

Definition setData {T} (v : option T) (s : FetchState T) : FetchState T :=
  {| data := v; loading := loading s; error := error s |}.

Definition setLoading {T} (b : bool) (s : FetchState T) : FetchState T :=
  {| data := data s; loading := b; error := error s |}.

Definition setError {T} (e : option JsError) (s : FetchState T)
  : FetchState T :=
  {| data := data s; loading := loading s; error := e |}.

(** The state of a hook that has just been created. *)
Definition initial {T} : FetchState T :=
  {| data := None; loading := false; error := None |}.

(** [fetchData] up to its [await]. *)
Definition fetchData_begin {T} (s : FetchState T) : FetchState T :=
  setError None (setLoading true s).

(** [fetchData] from the settlement of the awaited promise on: the [try]
    continuation or the [catch] block, then the [finally] block. *)
Definition fetchData_settle {T} (settled : Completion T) (s : FetchState T)
  : FetchState T :=
  let s' :=
    match settled with
    | Normal result => setData (Some result) s
    | Throw err =>
        setError
          (Some (match instanceof_Error err with
                 | Some e => e
                 | None => new_Error "An unknown error occurred"
                 end)) s
    end in
  setLoading false s'.

(** [fetchData], run to its end over the world [W] of the producer. *)
Definition fetchData {T W} (fetchFunction : Async W T)
  (sw : FetchState T * W) : FetchState T * W :=
  let (s, w) := sw in
  let s1 := fetchData_begin s in
  let (settled, w') := fetchFunction w in
  (fetchData_settle settled s1, w').

Definition reset {T} (s : FetchState T) : FetchState T :=
  setLoading false (setError None (setData None s)).

(** [useFetch(fetchFunction, autoFetch)] from creation to the settlement
    of the fetch that the effect run once on mount starts, if it starts
    one. *)
Definition useFetch {T W} (fetchFunction : Async W T) (autoFetch : bool)
  (w : W) : FetchState T * W :=
  if autoFetch then fetchData fetchFunction (initial, w) else (initial, w).

(** The state of the hook once its mount effect has run and before the
    fetch it started, if any, has settled. *)
Definition started {T} (autoFetch : bool) : FetchState T :=
  if autoFetch then fetchData_begin initial else initial.

(** The message of the error cell. *)
Definition error_message {T} (s : FetchState T) : option string :=
  option_map message (error s).

Definition unknown_error : string := "An unknown error occurred".

(** A producer that rejects with [e], over a world without content. *)
Definition rejecting (e : JsThrown) : Async unit nat := throw e.

(** A plain object with a [message] property, not an [Error]. *)
Definition boom_object : JsThrown := NotError (ThrownObject (Some "boom")).

(** [new Error("boom")] *)
Definition boom_error : JsThrown := IsError (new_Error "boom").

End UseFetch.

(* ================================================================= *)
(** ** app/(tabs)/index.tsx: the home screen *)

Module Home.

Import Store UseFetch.

(** What the component renders: the activity indicator, the error text, or
    the content with its two lists. The trending section is rendered only
    for [Some] sequence; [movies] is the [data] handed to the second list
    ([None] is [null]). *)
Inductive Screen :=
| ActivityIndicator
| ErrorText (shown : option string)
| Content (trending : option (list Document)) (movies : option Api.JsValue).

(** [a || b] on optional texts: a missing text and the empty text are
    falsy. *)
Definition or_else (a b : option string) : option string :=
  match a with
  | Some s => if truthy s then a else b
  | None => b
  end.

(** [err?.message] *)
Definition optional_message (err : option JsError) : option string :=
  option_map message err.

(** An error object, unlike [null], is truthy. *)
Definition present {A} (o : option A) : bool :=
  match o with
  | Some _ => true
  | None => false
  end.

(** The value returned by [Index] for the states of its two hooks. *)
Definition Index_render
  (trending : FetchState (option (list Document)))
  (movies : FetchState Api.JsValue) : Screen :=
  if loading movies || loading trending then ActivityIndicator
  else if present (error movies) || present (error trending) then
    ErrorText (or_else (optional_message (error movies))
                       (optional_message (error trending)))
  else
    Content (match data trending with
             | Some (Some entries) => Some entries
             | Some None => None
             | None => None
             end)
            (data movies).

(** The two hooks of [Index] from creation to the settlement of the
    fetches their mount effects start: [useFetch(getTrendingMovies)] over
    the store and [useFetch(() => fetchMovies({ query: "" }))] over the
    network. *)
Definition Index_mount (w : World) (n : Api.Net)
  : FetchState (option (list Document)) * FetchState Api.JsValue
    * World * Api.Net :=
  let (trending, w') := useFetch Appwrite.getTrendingMovies true w in
  let (movies, n') := useFetch (Api.fetchMovies "") true n in
  (trending, movies, w', n').

(** The screen once both fetches have settled. *)
Definition Index_mounted (w : World) (n : Api.Net) : Screen :=
  match Index_mount w n with
  | (trending, movies, _, _) => Index_render trending movies
  end.

End Home.

(* ================================================================= *)
(** ** Further vocabulary *)

Module Uri.

(** The value of a hexadecimal digit. *)
Definition hex_value (c : ascii) : nat :=
  let n := nat_of_ascii c in
  if ((48 <=? n) && (n <=? 57))%nat then n - 48
  else if ((65 <=? n) && (n <=? 70))%nat then n - 55
  else if ((97 <=? n) && (n <=? 102))%nat then n - 87
  else 0.

(** What the receiving end reads back from a percent-encoded text. *)
Fixpoint percent_decode (s : string) : string :=
  match s with
  | EmptyString => EmptyString
  | String c rest =>
      if Ascii.eqb c "%" then
        match rest with
        | String h (String l rest') =>
            String (ascii_of_nat (16 * hex_value h + hex_value l))
                   (percent_decode rest')
        | _ => String c (percent_decode rest)
        end
      else String c (percent_decode rest)
  end.

End Uri.

(** Doubles that hold integers, and the addition of the processor on
    them, against which [plus_1] is checked. *)
Module Doubles.

(** The distance between the doubles of the size of [a], for [a] from
    2^53 on: doubles have 53 significant bits. *)
Definition ulp (a : Z) : Z := (2 ^ (Z.log2 a - 52))%Z.

(** The integer is held by a double: its magnitude is below 2^53, or a
    multiple of the distance between the doubles of its size. *)
Definition representable (x : Z) : bool :=
  let a := Z.abs x in
  ((a <? 2 ^ 53) || (a mod ulp a =? 0))%Z.

(** The double nearest to the integer [n], the one with the even
    significand when [n] lies halfway between two doubles: what an
    operation on doubles returns for the exact result [n]. *)
Definition nearest_double (n : Z) : Z :=
  let a := Z.abs n in
  if (a <? 2 ^ 53)%Z then n
  else
    let q := (a / ulp a)%Z in
    let r := (a mod ulp a)%Z in
    let q' := if (2 * r <? ulp a)%Z then q
              else if (ulp a <? 2 * r)%Z then (q + 1)%Z
              else if Z.even q then q else (q + 1)%Z in
    (Z.sgn n * (q' * ulp a))%Z.

(** The double that holds an integer of magnitude below 2^63. *)
Definition to_float (x : Z) : PrimFloat.float :=
  if (x <? 0)%Z then
    PrimFloat.opp (PrimFloat.of_uint63 (Uint63.of_Z (- x)))
  else PrimFloat.of_uint63 (Uint63.of_Z x).

(** [plus_1] gives at [x] what the addition of doubles gives. *)
Definition agrees (x : Z) : bool :=
  PrimFloat.eqb (to_float (plus_1 x))
                (PrimFloat.add (to_float x) (to_float 1)).

(** The 81 integers [step] apart around [c]. *)
Definition around (c step : Z) : list Z :=
  map (fun k => (c + step * (Z.of_nat k - 40))%Z) (seq 0 81).

Definition sampled : list Z :=
  (around 0 1 ++ around (2 ^ 53) 1 ++ around (2 ^ 53 + 200) 2
   ++ around (2 ^ 54) 2 ++ around (2 ^ 54 + 400) 4 ++ around (2 ^ 55) 4
   ++ around (2 ^ 55 + 800) 8 ++ around (2 ^ 60) 128
   ++ around (2 ^ 62) 512)%list.

End Doubles.

Module Scenario.

Import Store Appwrite UseFetch.

(** The same term searched once for each subject of the list, in order. *)
Definition searches (t : string) (subjects : list Movie.t)
  : list Operation :=
  map (RecordSearch t) subjects.

(** The number of [RecordSearch] operations of a sequence. *)
Definition recordings (ops : list Operation) : nat :=
  List.length (filter (fun op => match op with
                                 | RecordSearch _ _ => true
                                 | GetTrending => false
                                 end) ops).

Definition titanic : Movie.t :=
  {| Movie.id := 597; Movie.title := "Titanic";
     Movie.poster_path := None |}.

Definition record (i : nat) (t : string) (c : option Z) : Document :=
  {| dollar_id := i; searchTerm := t; movie_id := Z.of_nat i;
     title := t; count := c; poster_url := None |}.

(** A store where a race left two records of the term [dune]. *)
Definition raced : list Document :=
  [record 1 "alien" (Some 4%Z); record 2 "dune" (Some 2%Z);
   record 3 "dune" (Some 1%Z)].

(** A producer that resolves to [v], over a world without content. *)
Definition resolving (v : nat) : Async unit nat := ret v.

Definition discover_page : Api.Response :=
  {| Api.status := 200; Api.statusText := "OK";
     Api.json := Normal (Api.JObj [("results", Api.JArr [Api.JNum "1"])]) |}.

Definition unplugged : JsThrown :=
  IsError {| name := "TypeError"; message := "Network request failed" |}.

End Scenario.

(* ================================================================= *)
(** * Properties *)

(** Entering [updateSearchCount] up to the outcome of its first call. *)
Ltac open_updateSearchCount :=
  unfold Appwrite.updateSearchCount, try_catch,
    Appwrite.updateSearchCount_try, bind, Store.listDocuments,
    Store.next_outcome.

(** Entering [getTrendingMovies] up to the outcome of its call. *)
Ltac open_getTrendingMovies :=
  unfold Appwrite.getTrendingMovies, try_catch, bind, Store.listDocuments,
    Store.next_outcome.

(** The test on [result.documents.length] and the read of
    [result.documents[0]]. *)
Ltac read_listing :=
  cbn [Store.documents List.length Nat.ltb Nat.leb nth_error].

(** Entering the write [call] up to its outcome. *)
Ltac open_write call :=
  unfold call, Store.next_outcome;
  cbn [Store.upcoming Store.collection Store.console].

(** ** The remote catalog client *)

Section CatalogClient.

Import Api.

Lemma fetchMovies_unfold (query : string) (n : Net) :
  has_lone_surrogate query = false ->
  fetchMovies query n =
  let req := issued_request query n in
  let n' := after_request req n in
  match server n req with
  | Normal response =>
      if negb (ok response) then
        (Throw (IsError (new_Error ("Failed to fetch movies: "
                                      ++ statusText response))), n')
      else
        match json response with
        | Normal data => get_results data n'
        | Throw e => (Throw e, n')
        end
  | Throw e => (Throw e, n')
  end.
Proof.
  intros well.
  unfold fetchMovies, bind, fetch, await_json, issued_request, after_request,
    endpoint_of, search_endpoint, discover_endpoint, encodeURIComponent.
  rewrite well. cbn zeta.
  destruct (truthy query); unfold ret;
    (destruct (server n _) as [response | e]; [ | reflexivity ]);
    (destruct (negb (ok response)); [ reflexivity | ]);
    destruct (json response); reflexivity.
Qed.

(** A query that holds an unpaired surrogate stops [fetchMovies] before
    [fetch]: the [URIError] of [encodeURIComponent] is thrown and the
    network is left as it was. *)
Lemma fetchMovies_malformed (query : string) (n : Net) :
  has_lone_surrogate query = true ->
  fetchMovies query n = (Throw URIError, n).
Proof.
  intros lone. unfold fetchMovies, bind, encodeURIComponent.
  rewrite lone. destruct query; [ discriminate lone | reflexivity ].
Qed.

(** Whatever the remote end answers, exactly one request is issued. *)
Lemma fetchMovies_sends_one (query : string) (n : Net) :
  has_lone_surrogate query = false ->
  sent (snd (fetchMovies query n))
  = (sent n ++ [issued_request query n])%list.
Proof.
  intros well. rewrite fetchMovies_unfold by exact well. cbn zeta.
  destruct (server n _) as [response | e]; [ | reflexivity ].
  destruct (negb (ok response)); [ reflexivity | ].
  destruct (json response) as [data | e]; [ | reflexivity ].
  destruct data; reflexivity.
Qed.

Lemma prefix_app (s t : string) : String.prefix s (s ++ t) = true.
Proof.
  induction s as [ | c s IH ]; cbn.
  - destruct t; reflexivity.
  - destruct (ascii_dec c c) as [ _ | ne ]; [ exact IH | now elim ne ].
Qed.

Lemma contains_app (p s t : string) : contains s (p ++ s ++ t) = true.
Proof.
  induction p as [ | c p IH ].
  - cbn [append]. destruct (s ++ t) eqn:E; cbn [contains];
      rewrite <- E, prefix_app; reflexivity.
  - cbn [append contains]. rewrite IH. apply orb_true_r.
Qed.

Lemma append_empty_r (s : string) : s ++ "" = s.
Proof.
  induction s as [ | c s IH ]; cbn; congruence.
Qed.

Lemma contains_suffix (p s : string) : contains s (p ++ s) = true.
Proof.
  pose proof (contains_app p s "") as H.
  rewrite append_empty_r in H. exact H.
Qed.

Lemma unreserved_not_delimiter (c : ascii) :
  unreserved c = true -> uri_delimiter c = false.
Proof.
  destruct c as [[] [] [] [] [] [] [] []]; vm_compute; congruence.
Qed.

Lemma percent_encode_safe (c : ascii) :
  Forall (fun x => uri_delimiter x = false)
         (list_ascii_of_string (percent_encode c)).
Proof.
  destruct c as [[] [] [] [] [] [] [] []]; vm_compute;
    repeat constructor.
Qed.

Lemma list_ascii_of_string_app (s t : string) :
  list_ascii_of_string (s ++ t)
  = (list_ascii_of_string s ++ list_ascii_of_string t)%list.
Proof.
  induction s as [ | c s IH ]; cbn; [ | rewrite IH ]; reflexivity.
Qed.

(** The encoded form of a query holds no character that would end or
    split the query parameter. *)
Lemma escape_safe (s : string) :
  Forall (fun x => uri_delimiter x = false)
         (list_ascii_of_string (escape s)).
Proof.
  induction s as [ | c s IH ]; cbn [escape].
  - constructor.
  - destruct (unreserved c) eqn:U.
    + cbn. constructor; [ now apply unreserved_not_delimiter | exact IH ].
    + rewrite list_ascii_of_string_app. apply Forall_app.
      split; [ apply percent_encode_safe | exact IH ].
Qed.

(** C8, as the specification words it, fails: for the non-empty query made
    of one unpaired surrogate [fetchMovies] issues no request at all. *)
Lemma fetchMovies_request_counterexample :
  ~ (forall (query : string) (n : Net),
        query <> "" ->
        exists req,
          sent (snd (fetchMovies query n)) = (sent n ++ [req])%list
          /\ contains (escape query) (url req) = true).
Proof.
  intros claim.
  destruct (claim lone_surrogate (net_answering (Normal not_found_response)))
    as (req & issued & _); [ discriminate | ].
  discriminate issued.
Qed.

(** C8, amended. For every non-empty query without unpaired surrogate
    [fetchMovies] issues one GET request in search mode: its URL is the
    base URL, [/search/movie?query=] and the percent-encoded query, which
    the URL therefore contains and which holds no delimiter of its own. For
    the empty query it issues one GET request in discovery mode, sorted by
    popularity descending, whose URL holds no query parameter. For a query
    that holds an unpaired surrogate it throws the [URIError] of
    [encodeURIComponent] and issues no request. *)
Theorem fetchMovies_request_by_query (query : string) (n : Net) :
  let req := issued_request query n in
  let base := BASE_URL (TMDB_CONFIG (env_key n)) in
  (has_lone_surrogate query = false ->
   sent (snd (fetchMovies query n)) = (sent n ++ [req])%list
   /\ method req = "GET"
   /\ (query <> "" ->
       url req = base ++ "/search/movie?query=" ++ escape query
       /\ contains (escape query) (url req) = true
       /\ Forall (fun x => uri_delimiter x = false)
                 (list_ascii_of_string (escape query)))
   /\ (query = "" ->
       url req = base ++ "/discover/movie?sort_by=popularity.desc"
       /\ contains "query" (url req) = false))
  /\ (has_lone_surrogate query = true ->
      fetchMovies query n = (Throw URIError, n)).
Proof.
  cbn zeta. split; [ | apply fetchMovies_malformed ].
  intros well. split; [ now apply fetchMovies_sends_one | ].
  split; [ reflexivity | ].
  split.
  - intros nonempty.
    assert (U : url (issued_request query n)
                = BASE_URL (TMDB_CONFIG (env_key n))
                    ++ "/search/movie?query=" ++ escape query).
    { destruct query as [ | c rest ]; [ now elim nonempty | reflexivity ]. }
    split; [ exact U | ].
    split; [ | apply escape_safe ].
    rewrite U.
    exact (contains_suffix
             (BASE_URL (TMDB_CONFIG (env_key n)) ++ "/search/movie?query=")
             (escape query)).
  - intros ->. split; reflexivity.
Qed.

Lemma fetchMovies_request_by_query_witness :
  url (issued_request "star wars" (net_answering (Normal not_found_response)))
  = "https://api.themoviedb.org/3/search/movie?query=star%20wars"
  /\ url (issued_request "" (net_answering (Normal not_found_response)))
     = "https://api.themoviedb.org/3/discover/movie?sort_by=popularity.desc"
  /\ fetchMovies lone_surrogate (net_answering (Normal not_found_response))
     = (Throw URIError, net_answering (Normal not_found_response)).
Proof.
  split; [ | split ].
  - destruct (fetchMovies_request_by_query
                "star wars" (net_answering (Normal not_found_response)))
      as (issued & _).
    destruct (issued eq_refl) as (_ & _ & search & _).
    destruct search as (U & _); [ discriminate | exact U ].
  - destruct (fetchMovies_request_by_query
                "" (net_answering (Normal not_found_response)))
      as (issued & _).
    destruct (issued eq_refl) as (_ & _ & _ & discover).
    destruct discover as (U & _); [ reflexivity | exact U ].
  - destruct (fetchMovies_request_by_query
                lone_surrogate (net_answering (Normal not_found_response)))
      as (_ & malformed).
    apply malformed. reflexivity.
Defined.

(** C9. When the transport answers the request of the query (which
    presupposes a query that could be encoded) with a status that is not a
    success status, [fetchMovies] returns no value: it throws an [Error]
    whose message is [Failed to fetch movies: ] followed by the status text
    of the response. *)
Theorem fetchMovies_non_success_throws
  (query : string) (n : Net) (response : Response) :
  has_lone_surrogate query = false ->
  server n (issued_request query n) = Normal response ->
  ok response = false ->
  fst (fetchMovies query n)
  = Throw (IsError (new_Error ("Failed to fetch movies: "
                                 ++ statusText response))).
Proof.
  intros well answered failure.
  rewrite fetchMovies_unfold by exact well. cbn zeta.
  rewrite answered, failure. reflexivity.
Qed.

Lemma fetchMovies_non_success_throws_witness :
  fst (fetchMovies "avatar" (net_answering (Normal not_found_response)))
  = Throw (IsError (new_Error "Failed to fetch movies: Not Found")).
Proof.
  apply (fetchMovies_non_success_throws
           "avatar" (net_answering (Normal not_found_response))
           not_found_response); reflexivity.
Defined.

(** C7, as the specification words it, fails: a success response whose body
    is the JSON object without fields has not the expected shape, and
    [fetchMovies] returns [undefined] for it instead of failing. *)
Lemma fetchMovies_parse_error_counterexample :
  ~ (forall (query : string) (n : Net) (response : Response),
        server n (issued_request query n) = Normal response ->
        ok response = true ->
        decodes_to_expected_shape response = false ->
        exists e, fst (fetchMovies query n) = Throw e).
Proof.
  intros claim.
  destruct (claim "" (net_answering (Normal empty_object_response))
              empty_object_response) as [e thrown];
    try reflexivity.
  discriminate thrown.
Qed.

(** C7, amended. For a success response (to the request of a query that
    could be encoded), [fetchMovies] fails exactly when
    the body is not JSON (the rejection of [response.json()] is surfaced as
    it is) or decodes to [null] (a [TypeError] is surfaced). Every other
    decoded body is accepted without validation: the call returns its
    [results] property, [undefined] when there is none; for a body of the
    expected shape that is exactly the sequence held by [results]. *)
Theorem fetchMovies_body_decoding
  (query : string) (n : Net) (response : Response) :
  has_lone_surrogate query = false ->
  server n (issued_request query n) = Normal response ->
  ok response = true ->
  (forall e, json response = Throw e -> fst (fetchMovies query n) = Throw e)
  /\ (json response = Normal JNull ->
      exists e, fst (fetchMovies query n) = Throw (IsError e)
                /\ name e = "TypeError")
  /\ (forall data, json response = Normal data -> data <> JNull ->
      fst (fetchMovies query n) = Normal (results_property data))
  /\ (forall fields items,
        json response = Normal (JObj fields) ->
        assoc "results" fields = Some (JArr items) ->
        fst (fetchMovies query n) = Normal (Some (JArr items))).
Proof.
  intros well answered success.
  rewrite fetchMovies_unfold by exact well. cbn zeta.
  rewrite answered, success. cbn [negb].
  repeat split.
  - intros e ->. reflexivity.
  - intros ->. eexists. split; reflexivity.
  - intros data -> not_null.
    destruct data; try reflexivity. now elim not_null.
  - intros fields items -> found. cbn. now rewrite found.
Qed.

Lemma fetchMovies_body_decoding_witness :
  fst (fetchMovies "" (net_answering (Normal empty_object_response)))
  = Normal None
  /\ (exists e,
        fst (fetchMovies "" (net_answering (Normal garbled_response)))
        = Throw e).
Proof.
  destruct (fetchMovies_body_decoding
              "" (net_answering (Normal empty_object_response))
              empty_object_response eq_refl eq_refl eq_refl)
    as (_ & _ & lenient & _).
  destruct (fetchMovies_body_decoding
              "" (net_answering (Normal garbled_response))
              garbled_response eq_refl eq_refl eq_refl)
    as (strict & _).
  split.
  - apply (lenient (JObj [])); [ reflexivity | discriminate ].
  - eexists. apply strict. reflexivity.
Defined.

End CatalogClient.

(** ** The document store *)

Section DocumentStore.

Import Store.

Lemma value_leb_total (x y : Value) :
  value_leb x y = false -> value_leb y x = true.
Proof.
  destruct x as [ | a | s ], y as [ | b | t ]; cbn; try congruence.
  - intros H. apply Z.leb_gt in H. apply Z.leb_le. lia.
  - intros H. destruct (String.leb_total s t) as [L | L]; congruence.
Qed.

Lemma insert_desc_head (key : Document -> Value) (x y : Document)
  (l : list Document) :
  descending key y x ->
  HdRel (descending key) y l ->
  HdRel (descending key) y (insert_desc key x l).
Proof.
  intros yx hd. destruct l as [ | z l ]; cbn.
  - constructor. exact yx.
  - destruct (value_leb (key z) (key x)); constructor;
      [ exact yx | now inversion hd ].
Qed.

Lemma insert_desc_sorted (key : Document -> Value) (x : Document)
  (l : list Document) :
  Sorted (descending key) l -> Sorted (descending key) (insert_desc key x l).
Proof.
  induction 1 as [ | y l sorted IH hd ]; cbn.
  - repeat constructor.
  - destruct (value_leb (key y) (key x)) eqn:E.
    + constructor; [ now constructor | constructor; exact E ].
    + constructor; [ exact IH | ].
      apply insert_desc_head; [ | exact hd ].
      apply value_leb_total. exact E.
Qed.

Lemma sort_desc_sorted (key : Document -> Value) (l : list Document) :
  Sorted (descending key) (sort_desc key l).
Proof.
  induction l as [ | x l IH ]; cbn.
  - constructor.
  - apply insert_desc_sorted. exact IH.
Qed.

Lemma insert_desc_In (key : Document -> Value) (x y : Document)
  (l : list Document) :
  In y (insert_desc key x l) <-> y = x \/ In y l.
Proof.
  induction l as [ | z l IH ]; cbn.
  - intuition congruence.
  - destruct (value_leb (key z) (key x)); cbn; rewrite ?IH;
      intuition congruence.
Qed.

Lemma sort_desc_In (key : Document -> Value) (y : Document)
  (l : list Document) :
  In y (sort_desc key l) <-> In y l.
Proof.
  induction l as [ | x l IH ]; cbn; [ tauto | ].
  rewrite insert_desc_In, IH. intuition congruence.
Qed.

Lemma firstn_In {A} (n : nat) (l : list A) (x : A) :
  In x (firstn n l) -> In x l.
Proof.
  revert n. induction l as [ | y l IH ]; intros [ | n ]; cbn; try tauto.
  intros [ -> | H ]; [ now left | right; now apply (IH n) ].
Qed.

Lemma firstn_strongly_sorted {A} (R : A -> A -> Prop) (n : nat) (l : list A) :
  StronglySorted R l -> StronglySorted R (firstn n l).
Proof.
  intros sorted. revert n.
  induction sorted as [ | y l sorted IH all ]; intros [ | n ]; cbn;
    try constructor.
  - apply IH.
  - rewrite Forall_forall in *. intros z Hz. apply all.
    now apply (firstn_In n).
Qed.

Lemma firstn_length_le {A} (n : nat) (l : list A) :
  List.length (firstn n l) <= n.
Proof.
  revert n. induction l as [ | y l IH ]; intros [ | n ]; cbn; try lia.
  specialize (IH n). lia.
Qed.

Lemma sorted_weaken {A} (R R' : A -> A -> Prop) (l : list A) :
  (forall a b, R a b -> R' a b) -> Sorted R l -> Sorted R' l.
Proof.
  intros sub. induction 1 as [ | y l sorted IH hd ]; constructor.
  - exact IH.
  - destruct hd; constructor. now apply sub.
Qed.

Lemma descending_count (a b : Document) :
  descending (attribute_value A_count) a b -> Appwrite.count_ge a b.
Proof.
  unfold descending, Appwrite.count_ge. cbn.
  destruct (count b) as [ cb | ], (count a) as [ ca | ]; cbn;
    try congruence; try tauto.
  intros H. now apply Z.leb_le.
Qed.

Lemma count_ge_trans (a b c : Document) :
  Appwrite.count_ge a b -> Appwrite.count_ge b c -> Appwrite.count_ge a c.
Proof.
  unfold Appwrite.count_ge.
  destruct (count a), (count b), (count c); try tauto; lia.
Qed.

(** An identity above every identity of the collection is not in it. *)
Lemma fresh_id_above (docs : list Document) (d : Document) :
  In d docs -> dollar_id d < fresh_id docs.
Proof.
  unfold fresh_id. induction docs as [ | x docs IH ]; cbn; [ tauto | ].
  intros [ -> | H ]; [ lia | specialize (IH H); lia ].
Qed.

Lemma fresh_id_unused (docs : list Document) :
  existsb (has_id (fresh_id docs)) docs = false.
Proof.
  destruct (existsb (has_id (fresh_id docs)) docs) eqn:E; [ | reflexivity ].
  apply existsb_exists in E. destruct E as (d & Hd & same).
  apply fresh_id_above in Hd. unfold has_id in same.
  apply Nat.eqb_eq in same. lia.
Qed.

Lemma find_has_id (docs : list Document) (d : Document) :
  In d docs -> find (has_id (dollar_id d)) docs <> None.
Proof.
  intros Hd none.
  apply (find_none _ _ none) in Hd. unfold has_id in Hd.
  now rewrite Nat.eqb_refl in Hd.
Qed.

End DocumentStore.

(** ** The addition of doubles *)

Section DoubleArithmetic.

Import Doubles.

Local Open Scope Z_scope.

(** The distance between doubles at a known size. *)
Lemma ulp_of_size (a k : Z) :
  0 <= k -> 2 ^ k <= a < 2 ^ (k + 1) -> ulp a = 2 ^ (k - 52).
Proof.
  intros Hk H. unfold ulp. f_equal. f_equal.
  apply Z.log2_unique; assumption.
Qed.

Lemma log2_from_53 (a : Z) : 2 ^ 53 <= a -> 53 <= Z.log2 a.
Proof.
  intros H. change 53 with (Z.log2 (2 ^ 53)). now apply Z.log2_le_mono.
Qed.

Lemma pow_by_ulp (k : Z) :
  53 <= k ->
  2 ^ k = 2 ^ 52 * 2 ^ (k - 52)
  /\ 2 ^ (k + 1) = 2 ^ 53 * 2 ^ (k - 52)
  /\ 2 <= 2 ^ (k - 52).
Proof.
  intros H. repeat split.
  - rewrite <- Z.pow_add_r by lia. f_equal. lia.
  - rewrite <- Z.pow_add_r by lia. f_equal. lia.
  - change 2 with (2 ^ 1) at 1. apply Z.pow_le_mono_r; lia.
Qed.

(** Rounding a positive integer from 2^53 on, given its quotient and
    remainder by the distance between the doubles of its size. *)
Lemma nearest_double_above (n k q r : Z) :
  53 <= k -> 2 ^ k <= n < 2 ^ (k + 1) ->
  n = q * 2 ^ (k - 52) + r -> 0 <= r < 2 ^ (k - 52) ->
  nearest_double n =
    (if 2 * r <? 2 ^ (k - 52) then q
     else if 2 ^ (k - 52) <? 2 * r then q + 1
     else if Z.even q then q else q + 1) * 2 ^ (k - 52).
Proof.
  intros Hk Hn Hdec Hr.
  destruct (pow_by_ulp k Hk) as (E1 & E2 & U).
  assert (Hpos : 2 ^ 53 <= n).
  { assert (2 ^ 53 <= 2 ^ k) by (apply Z.pow_le_mono_r; lia). lia. }
  unfold nearest_double.
  rewrite (Z.abs_eq n) by lia.
  destruct (n <? 2 ^ 53) eqn:E; [ apply Z.ltb_lt in E; lia | ].
  rewrite (ulp_of_size n k) by lia.
  assert (Q : n / 2 ^ (k - 52) = q).
  { symmetry. apply (Z.div_unique n (2 ^ (k - 52)) q r); [ lia | lia ]. }
  assert (R : n mod 2 ^ (k - 52) = r).
  { symmetry. apply (Z.mod_unique n (2 ^ (k - 52)) q r); [ lia | lia ]. }
  rewrite Q, R.
  rewrite (Z.sgn_pos n) by lia. lia.
Qed.

Lemma nearest_double_opp (n : Z) : nearest_double (- n) = - nearest_double n.
Proof.
  unfold nearest_double. rewrite Z.abs_opp.
  destruct (Z.abs n <? 2 ^ 53); [ reflexivity | ].
  rewrite Z.sgn_opp. lia.
Qed.

Lemma double_significand (a : Z) :
  2 ^ 53 <= a -> a mod ulp a = 0 ->
  exists k m,
    53 <= k /\ a = m * 2 ^ (k - 52) /\ 2 ^ 52 <= m < 2 ^ 53
    /\ 2 ^ k <= a < 2 ^ (k + 1).
Proof.
  intros large exact.
  pose proof (log2_from_53 a large) as Hk.
  assert (pos : 0 < a) by (assert (0 < 2 ^ 53) by reflexivity; lia).
  pose proof (Z.log2_spec a pos) as spec.
  replace (Z.succ (Z.log2 a)) with (Z.log2 a + 1) in spec by lia.
  exists (Z.log2 a), (a / ulp a).
  destruct (pow_by_ulp (Z.log2 a) Hk) as (E1 & E2 & U).
  unfold ulp in *.
  set (u := 2 ^ (Z.log2 a - 52)) in *.
  assert (D : a = a / u * u).
  { pose proof (Z.div_mod a u ltac:(lia)) as dm. rewrite exact in dm. lia. }
  split; [ exact Hk | ]. split; [ exact D | ]. split; [ | exact spec ].
  set (m := a / u) in *. nia.
Qed.

Lemma twice_even_mod_4 (m : Z) : Z.even m = true -> (2 * m) mod 4 = 0.
Proof.
  intros E. apply Z.even_spec in E. destruct E as (j & ->).
  replace (2 * (2 * j)) with (j * 4) by lia. apply Z.mod_mul. lia.
Qed.

Lemma twice_odd_mod_4 (m : Z) : Z.even m = false -> (2 * m) mod 4 = 2.
Proof.
  intros E. rewrite <- Z.negb_odd in E. apply negb_false_iff in E.
  apply Z.odd_spec in E. destruct E as (j & ->).
  replace (2 * (2 * j + 1)) with (2 + j * 4) by lia.
  rewrite Z.mod_add by lia. reflexivity.
Qed.

Lemma plus_1_from_54 (x : Z) : 2 ^ 54 <= Z.abs x -> plus_1 x = x.
Proof.
  intros far. unfold plus_1.
  assert (2 ^ 53 < 2 ^ 54) by reflexivity.
  destruct ((- 2 ^ 53 <=? x) && (x <? 2 ^ 53)) eqn:E.
  - apply andb_true_iff in E. destruct E as (l & h).
    apply Z.leb_le in l. apply Z.ltb_lt in h. lia.
  - destruct (Z.abs x <? 2 ^ 54) eqn:F; [ apply Z.ltb_lt in F; lia | reflexivity ].
Qed.

Lemma plus_1_from_53 (x : Z) :
  2 ^ 53 <= x \/ x < - 2 ^ 53 -> Z.abs x < 2 ^ 54 ->
  plus_1 x = if x mod 4 =? 0 then x else x + 2.
Proof.
  intros out near. unfold plus_1.
  destruct ((- 2 ^ 53 <=? x) && (x <? 2 ^ 53)) eqn:E.
  - apply andb_true_iff in E. destruct E as (l & h).
    apply Z.leb_le in l. apply Z.ltb_lt in h. lia.
  - apply Z.ltb_lt in near. now rewrite near.
Qed.

Lemma opp_twice_mod_4 (m r : Z) :
  (2 * m) mod 4 = r -> r = 0 \/ r = 2 -> (- (2 * m)) mod 4 = r.
Proof. intros H [ -> | -> ]; Z.div_mod_to_equations; lia. Qed.

(** The distance [u] between the doubles from 2^k to 2^(k+1). *)
Lemma double_scale (k : Z) :
  53 <= k ->
  exists u,
    2 ^ (k - 52) = u /\ 2 ^ k = 2 ^ 52 * u /\ 2 ^ (k + 1) = 2 ^ 53 * u
    /\ 2 <= u /\ (k = 53 -> u = 2) /\ (54 <= k -> 4 <= u).
Proof.
  intros Hk. destruct (pow_by_ulp k Hk) as (E1 & E2 & U).
  exists (2 ^ (k - 52)). repeat split; try assumption.
  - intros ->. reflexivity.
  - intros far. change 4 with (2 ^ 2). apply Z.pow_le_mono_r; lia.
Qed.

(** [plus_1] is the addition of doubles: for every integer [x] that a
    double holds, it is the double nearest to [x + 1], ties to even. *)
Theorem plus_1_is_nearest_double (x : Z) :
  representable x = true -> plus_1 x = nearest_double (x + 1).
Proof.
  intros rep.
  assert (P53 : 2 ^ 53 = 9007199254740992) by reflexivity.
  assert (P52 : 2 ^ 52 = 4503599627370496) by reflexivity.
  assert (P54 : 2 ^ 54 = 18014398509481984) by reflexivity.
  destruct (Z_lt_le_dec x (- 2 ^ 53)) as [ below | low ];
    [ | destruct (Z_lt_le_dec x (2 ^ 53)) as [ high | above ] ].
  - unfold representable in rep.
    destruct (Z.abs x <? 2 ^ 53) eqn:E; [ apply Z.ltb_lt in E; lia | ].
    cbn [orb] in rep. apply Z.eqb_eq in rep.
    rewrite (Z.abs_neq x) in rep by lia.
    destruct (double_significand (- x) ltac:(lia) rep) as (k & m & Hk & D & M & B).
    destruct (double_scale k Hk) as (u & Eu & E1 & E2 & U & U53 & U54).
    rewrite Eu in D. rewrite E1, E2 in B.
    replace (x + 1) with (- (- x - 1)) by lia. rewrite nearest_double_opp.
    destruct (Z.eq_dec m (2 ^ 52)) as [ corner | inner ].
    +      assert (K : 54 <= k).
      { destruct (Z.eq_dec k 53) as [ K | ]; [ | lia ].
        specialize (U53 K). nia. }
      destruct (double_scale (k - 1) ltac:(lia)) as (v & Ev & F1 & F2 & V & V53 & V54).
      replace (k - 1 + 1) with k in F2 by lia.
      assert (UV : u = 2 * v) by nia.
      rewrite (nearest_double_above (- x - 1) (k - 1) (2 ^ 53 - 1) (v - 1));
        [ | first [ lia | rewrite Ev; nia | replace (k - 1 + 1) with k by lia; nia ] .. ].
      rewrite Ev.
      rewrite plus_1_from_54 by (rewrite Z.abs_neq by lia; specialize (U54 K); nia).
      destruct (2 * (v - 1) <? v) eqn:T1; [ apply Z.ltb_lt in T1; lia | ].
      destruct (v <? 2 * (v - 1)) eqn:T2.
      * nia.
      * apply Z.ltb_ge in T2. assert (v = 2) by lia.
        replace (Z.even (2 ^ 53 - 1)) with false by reflexivity. nia.
    +      rewrite (nearest_double_above (- x - 1) k (m - 1) (u - 1));
        [ | first [ lia | rewrite Eu; nia | rewrite ?E1, ?E2; nia ] .. ].
      rewrite Eu.
      destruct (2 * (u - 1) <? u) eqn:T1; [ apply Z.ltb_lt in T1; lia | ].
      destruct (u <? 2 * (u - 1)) eqn:T2.
      * apply Z.ltb_lt in T2.
        rewrite plus_1_from_54; [ nia | ].
        rewrite Z.abs_neq by lia.
        assert (54 <= k) by (destruct (Z.eq_dec k 53) as [ K | ]; [ specialize (U53 K); lia | lia ]).
        specialize (U54 ltac:(lia)). nia.
      * apply Z.ltb_ge in T2. assert (Hu : u = 2) by lia.
        rewrite plus_1_from_53; [ | lia | rewrite Z.abs_neq by lia; nia ].
        replace x with (- (2 * m)) by nia.
        destruct (Z.even (m - 1)) eqn:Ev.
        -- assert (O : Z.even m = false).
           { replace m with (Z.succ (m - 1)) by lia.
             rewrite Z.even_succ, <- Z.negb_even, Ev. reflexivity. }
           rewrite (opp_twice_mod_4 m 2 (twice_odd_mod_4 m O)) by now right.
           replace (2 =? 0) with false by reflexivity. nia.
        -- assert (O : Z.even m = true).
           { replace m with (Z.succ (m - 1)) by lia.
             rewrite Z.even_succ, <- Z.negb_even, Ev. reflexivity. }
           rewrite (opp_twice_mod_4 m 0 (twice_even_mod_4 m O)) by now left.
           replace (0 =? 0) with true by reflexivity. nia.
  -    assert (Ex : plus_1 x = x + 1).
    { unfold plus_1. apply Z.leb_le in low. apply Z.ltb_lt in high.
      now rewrite low, high. }
    rewrite Ex. unfold nearest_double.
    destruct (Z.abs (x + 1) <? 2 ^ 53) eqn:E; [ reflexivity | ].
    apply Z.ltb_ge in E. assert (x + 1 = 2 ^ 53) by lia.
    replace (x + 1) with (2 ^ 53) by lia. reflexivity.
  -    unfold representable in rep.
    destruct (Z.abs x <? 2 ^ 53) eqn:E; [ apply Z.ltb_lt in E; lia | ].
    cbn [orb] in rep. apply Z.eqb_eq in rep.
    rewrite (Z.abs_eq x) in rep by lia.
    destruct (double_significand x above rep) as (k & m & Hk & D & M & B).
    destruct (double_scale k Hk) as (u & Eu & E1 & E2 & U & U53 & U54).
    rewrite Eu in D.
    rewrite (nearest_double_above (x + 1) k m 1);
      [ | first [ lia | rewrite Eu; nia | rewrite ?E1, ?E2; nia ] .. ].
    rewrite Eu. rewrite E1, E2 in B.
    destruct (2 * 1 <? u) eqn:T1.
    + apply Z.ltb_lt in T1. rewrite plus_1_from_54; [ lia | ].
      rewrite Z.abs_eq by lia.
      assert (54 <= k) by (destruct (Z.eq_dec k 53) as [ K | ]; [ specialize (U53 K); lia | lia ]).
      specialize (U54 ltac:(lia)). nia.
    + apply Z.ltb_ge in T1. assert (Hu : u = 2) by lia.
      destruct (u <? 2 * 1) eqn:T2; [ apply Z.ltb_lt in T2; lia | ].
      rewrite plus_1_from_53; [ | lia | rewrite Z.abs_eq by lia; nia ].
      replace x with (2 * m) by nia.
      destruct (Z.even m) eqn:Ev.
      * rewrite (twice_even_mod_4 m Ev).
        replace (0 =? 0) with true by reflexivity. nia.
      * rewrite (twice_odd_mod_4 m Ev).
        replace (2 =? 0) with false by reflexivity. nia.
Qed.

End DoubleArithmetic.

(** ** Search telemetry and trending *)

Section Telemetry.

Import Store Appwrite.

Lemma select_by_term (q : string) (docs : list Document) :
  select [Query_equal "searchTerm" (VText q)] docs
  = Some (records_for q docs).
Proof. reflexivity. Qed.

Lemma select_trending (docs : list Document) :
  select [Query_limit 5; Query_orderDesc "count"] docs
  = Some (firstn 5 (sort_desc (attribute_value A_count) docs)).
Proof. reflexivity. Qed.

Lemma records_for_In (t : string) (docs : list Document) (d : Document) :
  In d (records_for t docs) <-> In d docs /\ searchTerm d = t.
Proof.
  unfold records_for. rewrite filter_In, String.eqb_eq. tauto.
Qed.

Lemma served_next_2 (w : World) :
  served_next 2 w = true ->
  upcoming w = []
  \/ upcoming w = [Served]
  \/ exists rest, upcoming w = Served :: Served :: rest.
Proof.
  unfold served_next. destruct (upcoming w) as [ | [ | e | e ] l ]; cbn;
    try congruence; [ now left | ].
  destruct l as [ | [ | e | e ] l ]; cbn; try congruence;
    [ right; now left | right; right; now exists l ].
Qed.

(** What [updateSearchCount] does to the collection, whatever happens to
    its remote calls: nothing, or one counter written under the identity of
    the first record of the term, or one record appended when the term has
    none. It never throws. *)
Lemma updateSearchCount_cases (q : string) (m : Movie.t) (w : World) :
  exists w',
    updateSearchCount q m w = (Normal tt, w')
    /\ (collection w' = collection w
        \/ (exists d rest,
               records_for q (collection w) = d :: rest
               /\ collection w'
                  = with_count (dollar_id d) (plus_1 (or_0 (count d)))
                      (collection w))
        \/ (records_for q (collection w) = []
            /\ collection w'
               = (collection w
                    ++ [new_document (fresh_id (collection w))
                          (first_search q m)])%list)).
Proof.
  open_updateSearchCount.
  destruct (upcoming w) as [ | o1 rest1 ];
    [ | destruct o1 as [ | e | e ] ];
    try (eexists; split; [ reflexivity | now left ]);
    rewrite select_by_term;
    (destruct (records_for q (collection w)) as [ | d tl ] eqn:found;
     read_listing;
     [ open_write createDocument;
       rewrite fresh_id_unused
     | open_write updateDocument;
       destruct (find (has_id (dollar_id d)) (collection w)) ]).
  all: try (destruct rest1 as [ | [ | e | e ] rest2 ]).
  all: eexists; (split; [ reflexivity | ]); cbn [collection].
  all: first [ now left
             | right; left; exists d, tl; split; reflexivity
             | right; right; split; reflexivity ].
Qed.

Lemma updateSearchCount_served_found
  (q : string) (m : Movie.t) (w : World) (d : Document)
  (rest : list Document) :
  served_next 2 w = true ->
  records_for q (collection w) = d :: rest ->
  updateSearchCount q m w
  = (Normal tt,
     {| collection := with_count (dollar_id d) (plus_1 (or_0 (count d)))
                        (collection w);
        upcoming := skipn 2 (upcoming w);
        console := console w |}).
Proof.
  intros served found.
  assert (present : find (has_id (dollar_id d)) (collection w) <> None).
  { apply find_has_id. apply (records_for_In q).
    rewrite found. now left. }
  open_updateSearchCount.
  destruct (served_next_2 w served) as [ E | [ E | (l & E) ] ]; rewrite E;
    rewrite select_by_term, found;
    read_listing;
    open_write updateDocument;
    destruct (find (has_id (dollar_id d)) (collection w));
    solve [ reflexivity | now elim present ].
Qed.

Lemma updateSearchCount_served_new (q : string) (m : Movie.t) (w : World) :
  served_next 2 w = true ->
  records_for q (collection w) = [] ->
  updateSearchCount q m w
  = (Normal tt,
     {| collection := (collection w
                         ++ [new_document (fresh_id (collection w))
                               (first_search q m)])%list;
        upcoming := skipn 2 (upcoming w);
        console := console w |}).
Proof.
  intros served absent.
  open_updateSearchCount.
  destruct (served_next_2 w served) as [ E | [ E | (l & E) ] ]; rewrite E;
    rewrite select_by_term, absent;
    read_listing;
    open_write createDocument;
    rewrite fresh_id_unused; reflexivity.
Qed.

Lemma or_0_Some (c : Z) : or_0 (Some c) = c.
Proof.
  unfold or_0. destruct (c =? 0)%Z eqn:E; [ | reflexivity ].
  apply Z.eqb_eq in E. now subst.
Qed.

(** Where the sum is exact. *)
Lemma plus_1_exact (x : Z) :
  (- 2 ^ 53 <= x < 2 ^ 53)%Z -> plus_1 x = (x + 1)%Z.
Proof.
  intros (low & high). unfold plus_1.
  apply Z.leb_le in low. apply Z.ltb_lt in high.
  now rewrite low, high.
Qed.


(** On every sampled integer that a double holds, around 0 and around the
    powers of 2 where the distance between doubles changes, [plus_1] is the
    addition of doubles as the processor computes it. *)
Lemma plus_1_is_the_sum_of_doubles :
  forallb (fun x => implb (Doubles.representable x) (Doubles.agrees x))
          (Doubles.sampled ++ map Z.opp Doubles.sampled)
  = true.
Proof. vm_compute. reflexivity. Qed.

Lemma records_for_with_count (t : string) (i : nat) (c : Z)
  (docs : list Document) :
  records_for t (with_count i c docs) = with_count i c (records_for t docs).
Proof.
  unfold records_for, with_count.
  induction docs as [ | x docs IH ]; cbn [map filter]; [ reflexivity | ].
  replace (searchTerm (if has_id i x then apply_partial (only_count c) x
                       else x))
    with (searchTerm x) by (destruct (has_id i x); reflexivity).
  destruct (String.eqb (searchTerm x) t); cbn [map]; now rewrite IH.
Qed.

Lemma records_for_app (t : string) (l l' : list Document) :
  records_for t (l ++ l') = (records_for t l ++ records_for t l')%list.
Proof. apply filter_app. Qed.



(** Two documents of a collection with unique identities that share an
    identity are the same document. *)
Lemma ids_unique_same (docs : list Document) (x y : Document) :
  ids_unique docs -> In x docs -> In y docs ->
  dollar_id x = dollar_id y -> x = y.
Proof.
  unfold ids_unique. induction docs as [ | z docs IH ]; cbn; [ tauto | ].
  intros nodup Hx Hy same. inversion nodup as [ | ? ? fresh nodup' ]; subst.
  destruct Hx as [ -> | Hx ], Hy as [ -> | Hy ]; try reflexivity.
  - elim fresh. rewrite same. now apply in_map.
  - elim fresh. rewrite <- same. now apply in_map.
  - now apply IH.
Qed.




Lemma getTrendingMovies_collection (w : World) :
  collection (snd (getTrendingMovies w)) = collection w.
Proof.
  open_getTrendingMovies.
  rewrite select_trending.
  destruct (upcoming w) as [ | [ | e | e ] rest ]; reflexivity.
Qed.

(** C1, as the specification words it, fails: for a record whose counter
    is 2^53 the sum of the code, a sum of doubles, is 2^53 again, and the
    record is left with the counter it had, not with that counter plus 1. *)
Lemma updateSearchCount_large_count_counterexample :
  ~ (forall (t : string) (item : Movie.t) (w : World) (d : Document),
        served_next 2 w = true ->
        records_for t (collection w) = [d] ->
        exists d',
          records_for t (collection (snd (updateSearchCount t item w)))
          = [d']
          /\ count d' = Some (match count d with
                              | Some c => c + 1
                              | None => 1
                              end)%Z).
Proof.
  intros claim.
  destruct (claim "Avatar" avatar (calm [worn_record]) worn_record
              eq_refl eq_refl)
    as (d' & only & counted).
  vm_compute in only. injection only as <-.
  vm_compute in counted. discriminate counted.
Qed.

(** C1, amended. When the term [t] has one SearchRecord whose counter, if
    it has one, lies from -2^53 to 2^53 - 1, and the store serves the
    calls, [updateSearchCount t item] leaves exactly one SearchRecord for
    [t]; its counter is the former counter plus 1, and 1 when the former
    counter is missing. *)
Theorem updateSearchCount_increments
  (t : string) (item : Movie.t) (w : World) (d : Document) :
  served_next 2 w = true ->
  records_for t (collection w) = [d] ->
  (forall c, count d = Some c -> - 2 ^ 53 <= c < 2 ^ 53)%Z ->
  exists d',
    records_for t (collection (snd (updateSearchCount t item w))) = [d']
    /\ count d' = Some (match count d with
                        | Some c => c + 1
                        | None => 1
                        end)%Z.
Proof.
  intros served found safe.
  rewrite (updateSearchCount_served_found t item w d [] served found).
  cbn [snd collection].
  rewrite records_for_with_count, found.
  unfold with_count, has_id. cbn [map]. rewrite Nat.eqb_refl.
  eexists. split; [ reflexivity | ].
  cbn [apply_partial only_count count Partial.count].
  destruct (count d) as [ c | ].
  - rewrite or_0_Some, plus_1_exact by (now apply safe). reflexivity.
  - reflexivity.
Qed.

Lemma updateSearchCount_increments_witness :
  exists d',
    records_for "Avatar"
      (collection (snd (updateSearchCount "Avatar" avatar searched_once)))
    = [d']
    /\ count d' = Some 2%Z.
Proof.
  apply (updateSearchCount_increments "Avatar" avatar searched_once
           {| dollar_id := 1; searchTerm := "Avatar"; movie_id := 19995;
              title := "Avatar"; count := Some 1%Z;
              poster_url := Some "https://image.tmdb.org/t/p/w500/avatar.jpg"
           |});
    try reflexivity.
  intros c known. injection known as <-.
  split; [ vm_compute; discriminate | reflexivity ].
Defined.

(** C2, as the specification words it, fails: a catalog item whose poster
    path is present but empty gets a record without poster URL, not the
    image base URL followed by the empty path. *)
Lemma updateSearchCount_poster_counterexample :
  ~ (forall (t : string) (subject : Movie.t) (w : World),
        served_next 2 w = true ->
        records_for t (collection w) = [] ->
        exists d',
          records_for t (collection (snd (updateSearchCount t subject w)))
          = [d']
          /\ count d' = Some 1%Z
          /\ movie_id d' = Movie.id subject
          /\ title d' = Movie.title subject
          /\ poster_url d'
             = option_map (append image_base) (Movie.poster_path subject)).
Proof.
  intros claim.
  destruct (claim "Untitled" blank_poster (calm []) eq_refl eq_refl)
    as (d' & only & _ & _ & _ & poster).
  vm_compute in only. injection only as <-.
  discriminate poster.
Qed.

(** C2, amended. When the term [t] has no SearchRecord and the store
    serves the calls, [updateSearchCount t subject] appends exactly one
    record, the only one of [t], with counter 1, the identifier and the
    title of the subject, and as poster URL the image base URL followed by
    the poster path when that path is present and not empty, and null
    otherwise. *)
Theorem updateSearchCount_creates
  (t : string) (subject : Movie.t) (w : World) :
  served_next 2 w = true ->
  records_for t (collection w) = [] ->
  exists d',
    collection (snd (updateSearchCount t subject w))
    = (collection w ++ [d'])%list
    /\ records_for t (collection (snd (updateSearchCount t subject w)))
       = [d']
    /\ searchTerm d' = t
    /\ count d' = Some 1%Z
    /\ movie_id d' = Movie.id subject
    /\ title d' = Movie.title subject
    /\ poster_url d'
       = match Movie.poster_path subject with
         | Some (String c rest) =>
             Some ("https://image.tmdb.org/t/p/w500" ++ String c rest)
         | Some EmptyString => None
         | None => None
         end.
Proof.
  intros served absent.
  rewrite (updateSearchCount_served_new t subject w served absent).
  cbn [snd collection]. eexists. split; [ reflexivity | ].
  split.
  - rewrite records_for_app, absent. unfold records_for.
    cbn [filter new_document first_search searchTerm Data.searchTerm app].
    now rewrite String.eqb_refl.
  - repeat split.
    cbn. unfold poster_url_of.
    destruct (Movie.poster_path subject) as [ [ | c rest ] | ]; reflexivity.
Qed.

Lemma updateSearchCount_creates_witness :
  exists d',
    collection (snd (updateSearchCount "Avatar" avatar (calm []))) = [d']
    /\ count d' = Some 1%Z
    /\ movie_id d' = 19995%Z
    /\ poster_url d' = Some "https://image.tmdb.org/t/p/w500/avatar.jpg".
Proof.
  destruct (updateSearchCount_creates "Avatar" avatar (calm [])
              eq_refl eq_refl)
    as (d' & grown & _ & _ & counted & subject & _ & poster).
  exists d'. repeat split; assumption.
Defined.

Lemma Forall2_map_same {A} (R : A -> A -> Prop) (f : A -> A) (l : list A) :
  (forall x, In x l -> R x (f x)) -> Forall2 R l (map f l).
Proof.
  induction l as [ | x l IH ]; cbn; intros each; constructor.
  - apply each. now left.
  - apply IH. intros y Hy. apply each. now right.
Qed.

(** C10. When the term has a record in a store with unique identities,
    [updateSearchCount] changes the collection in the counter of that
    record at most: every record keeps its place, its identity, its search
    term, its movie identifier, its title and its poster URL, and every
    record other than the one found is left as it is. *)
Theorem updateSearchCount_writes_only_count
  (q : string) (m : Movie.t) (w : World) (d : Document) :
  ids_unique (collection w) ->
  hd_error (records_for q (collection w)) = Some d ->
  Forall2 (fun x x' => same_but_count x x' /\ (x <> d -> x' = x))
          (collection w)
          (collection (snd (updateSearchCount q m w))).
Proof.
  intros unique found.
  assert (member : In d (collection w)).
  { apply (records_for_In q). destruct (records_for q (collection w));
      [ discriminate | injection found as ->; now left ]. }
  destruct (updateSearchCount_cases q m w)
    as (w' & run & [ same | [ (d0 & rest & first & written) | (none & _) ] ]);
    rewrite run; cbn [snd].
  - rewrite same. rewrite <- (map_id (collection w)) at 2.
    apply Forall2_map_same. unfold same_but_count. intros; tauto.
  - rewrite first in found. injection found as ->.
    rewrite written. apply Forall2_map_same.
    intros x Hx. unfold has_id. destruct (dollar_id x =? dollar_id d)%nat eqn:E.
    + apply Nat.eqb_eq in E.
      assert (x = d) by (now apply (ids_unique_same (collection w))).
      subst x. split; [ | intros other; now elim other ].
      unfold same_but_count. cbn. tauto.
    + unfold same_but_count. tauto.
  - rewrite none in found. discriminate.
Qed.

Lemma updateSearchCount_writes_only_count_witness :
  Forall2 (fun x x' =>
             same_but_count x x'
             /\ (x <> {| dollar_id := 1; searchTerm := "Avatar";
                         movie_id := 19995; title := "Avatar";
                         count := Some 1%Z;
                         poster_url :=
                           Some "https://image.tmdb.org/t/p/w500/avatar.jpg"
                      |} -> x' = x))
          (collection searched_once)
          (collection (snd (updateSearchCount "Avatar" avatar searched_once))).
Proof.
  apply updateSearchCount_writes_only_count.
  - repeat constructor. intros [].
  - reflexivity.
Defined.

Lemma perform_cases (op : Operation) (w : World) :
  collection (perform op w) = collection w
  \/ (exists q d rest,
         records_for q (collection w) = d :: rest
         /\ collection (perform op w)
            = with_count (dollar_id d) (plus_1 (or_0 (count d))) (collection w))
  \/ (exists q m,
         records_for q (collection w) = []
         /\ collection (perform op w)
            = (collection w
                 ++ [new_document (fresh_id (collection w))
                       (first_search q m)])%list).
Proof.
  destruct op as [ q m | ]; cbn [perform].
  - destruct (updateSearchCount_cases q m w)
      as (w' & run & [ same | [ (d & rest & first & written) | (none & grown) ] ]);
      rewrite run; cbn [snd].
    + now left.
    + right; left. now exists q, d, rest.
    + right; right. now exists q, m.
  - left. apply getTrendingMovies_collection.
Qed.






Lemma count_ge_transitive : Relations_1.Transitive count_ge.
Proof.
  intros a b c. apply count_ge_trans.
Qed.

Lemma getTrendingMovies_served (w : World) :
  served_next 1 w = true ->
  fst (getTrendingMovies w)
  = Normal (Some (firstn 5 (sort_desc (attribute_value A_count)
                                      (collection w)))).
Proof.
  unfold served_next. open_getTrendingMovies.
  rewrite select_trending.
  destruct (upcoming w) as [ | [ | e | e ] rest ]; cbn; congruence.
Qed.

Lemma getTrendingMovies_result (w : World) (entries : list Document) :
  fst (getTrendingMovies w) = Normal (Some entries) ->
  entries = firstn 5 (sort_desc (attribute_value A_count) (collection w)).
Proof.
  open_getTrendingMovies.
  rewrite select_trending.
  destruct (upcoming w) as [ | [ | e | e ] rest ]; cbn; congruence.
Qed.

(** C4. Whatever [getTrendingMovies] returns holds at most 5 entries (the
    limit, which the call fixes at 5), ordered by counter descending with
    missing counters last, all taken from the collection; and it returns
    such a sequence whenever the store serves the call. *)
Theorem getTrendingMovies_top_five :
  (forall (w : World) (entries : list Document),
      fst (getTrendingMovies w) = Normal (Some entries) ->
      List.length entries <= 5
      /\ StronglySorted count_ge entries
      /\ incl entries (collection w))
  /\ (forall w : World,
        served_next 1 w = true ->
        exists entries, fst (getTrendingMovies w) = Normal (Some entries)).
Proof.
  split.
  - intros w entries returned.
    apply getTrendingMovies_result in returned. subst entries.
    split; [ apply firstn_length_le | ].
    split.
    + apply firstn_strongly_sorted.
      apply Sorted_StronglySorted; [ exact count_ge_transitive | ].
      apply (sorted_weaken (descending (attribute_value A_count)));
        [ exact descending_count | apply sort_desc_sorted ].
    + intros d Hd. apply firstn_In in Hd. now apply sort_desc_In in Hd.
  - intros w served. eexists. now apply getTrendingMovies_served.
Qed.

Lemma getTrendingMovies_top_five_witness :
  exists entries,
    fst (getTrendingMovies (calm seven_records)) = Normal (Some entries)
    /\ map count entries
       = [Some 9%Z; Some 9%Z; Some 7%Z; Some 4%Z; Some 3%Z]
    /\ List.length entries <= 5
    /\ StronglySorted count_ge entries.
Proof.
  destruct getTrendingMovies_top_five as (bounded & total).
  destruct (total (calm seven_records) eq_refl) as (entries & returned).
  destruct (bounded (calm seven_records) entries returned)
    as (short & sorted & _).
  exists entries. repeat split; try assumption.
  vm_compute in returned. injection returned as <-. reflexivity.
Defined.

(** C5. Failures of the store never escape. [updateSearchCount] always
    completes normally; when its first remote call fails, or its first is
    served and its second fails, it has logged the thrown value.
    [getTrendingMovies] always completes normally; when its remote call
    fails it returns [undefined] and has logged the thrown value. *)
Theorem store_failures_do_not_escape :
  (forall (q : string) (m : Movie.t) (w : World),
      fst (updateSearchCount q m w) = Normal tt)
  /\ (forall (q : string) (m : Movie.t) (w : World) (o : Outcome)
             (rest : list Outcome) (e : JsThrown),
        upcoming w = o :: rest \/ upcoming w = Served :: o :: rest ->
        fails_with o e ->
        console (snd (updateSearchCount q m w))
        = (console w ++ [search_failure e])%list)
  /\ (forall w : World, exists r, fst (getTrendingMovies w) = Normal r)
  /\ (forall (w : World) (o : Outcome) (rest : list Outcome) (e : JsThrown),
        upcoming w = o :: rest ->
        fails_with o e ->
        fst (getTrendingMovies w) = Normal None
        /\ console (snd (getTrendingMovies w))
           = (console w ++ [{| label := None; logged := e |}])%list).
Proof.
  split; [ | split; [ | split ] ].
  - intros q m w.
    destruct (updateSearchCount_cases q m w) as (w' & run & _).
    now rewrite run.
  - intros q m w o rest e next failing.
    open_updateSearchCount.
    destruct next as [ E | E ]; rewrite E.
    + destruct failing as [ -> | -> ]; reflexivity.
    + rewrite select_by_term.
      destruct (records_for q (collection w)) as [ | d tl ] eqn:found;
        read_listing.
      * open_write createDocument. rewrite fresh_id_unused.
        destruct failing as [ -> | -> ]; reflexivity.
      * assert (present : find (has_id (dollar_id d)) (collection w) <> None).
        { apply find_has_id. apply (records_for_In q).
          rewrite found. now left. }
        open_write updateDocument.
        destruct (find (has_id (dollar_id d)) (collection w));
          [ | now elim present ].
        destruct failing as [ -> | -> ]; reflexivity.
  - intros w.
    open_getTrendingMovies.
    rewrite select_trending.
    destruct (upcoming w) as [ | [ | e | e ] rest ]; eexists; reflexivity.
  - intros w o rest e next failing.
    open_getTrendingMovies.
    rewrite next. destruct failing as [ -> | -> ]; split; reflexivity.
Qed.

Lemma store_failures_do_not_escape_witness :
  updateSearchCount "Avatar" avatar (troubled [Served; ReplyLost timeout] [])
  = (Normal tt,
     {| collection := collection searched_once;
        upcoming := [];
        console := [search_failure timeout] |})
  /\ fst (getTrendingMovies (troubled [Refused timeout] seven_records))
     = Normal None.
Proof.
  destruct store_failures_do_not_escape as (quiet & logged & _ & absent).
  split.
  - pose proof (quiet "Avatar" avatar
                  (troubled [Served; ReplyLost timeout] [])) as Q.
    pose proof (logged "Avatar" avatar
                  (troubled [Served; ReplyLost timeout] [])
                  (ReplyLost timeout) [] timeout
                  (or_intror eq_refl) (or_intror eq_refl)) as L.
    destruct (updateSearchCount "Avatar" avatar
                (troubled [Served; ReplyLost timeout] []))
      as [r w'] eqn:run.
    cbn [fst snd] in Q, L. subst r.
    vm_compute in run. injection run as <-. reflexivity.
  - apply (absent (troubled [Refused timeout] seven_records)
             (Refused timeout) [] timeout eq_refl (or_introl eq_refl)).
Defined.

End Telemetry.

(** ** The fetch hook *)

Section FetchHook.

Import UseFetch.

(** C6, as the specification words it, fails: a producer that rejects with
    a plain object carrying the message [boom] leaves the fallback message
    in the error cell, not [boom]. *)
Lemma fetchData_message_counterexample :
  ~ (forall (T W : Type) (P : Async W T) (s : FetchState T) (w w' : W)
            (e : JsThrown),
        P w = (Throw e, w') ->
        error_message (fst (fetchData P (s, w)))
        = Some (match message_of e with
                | Some m => m
                | None => unknown_error
                end)).
Proof.
  intros claim.
  specialize (claim nat unit (rejecting boom_object) initial tt tt
                boom_object eq_refl).
  discriminate claim.
Qed.

(** C6, amended. When the producer fails, [fetchData] ends with [loading]
    false, [data] as it was and an error descriptor: the thrown value
    itself when it is an instance of [Error], its message kept as it is,
    and otherwise, also for a thrown text or a plain object that carries a
    message, a new [Error] with the message [An unknown error occurred].
    After creation with automatic start, where the producer rejects with an
    [Error] of message [msg], the state is data absent, loading false and
    an error of message [msg]. *)
Theorem fetchData_failure {T W : Type}
  (P : Async W T) (s : FetchState T) (w w' : W) (e : JsThrown) :
  P w = (Throw e, w') ->
  fetchData P (s, w)
  = ({| data := data s;
        loading := false;
        error := Some (match e with
                       | IsError err => err
                       | NotError _ => new_Error "An unknown error occurred"
                       end) |}, w')
  /\ (forall msg : string,
         e = IsError (new_Error msg) ->
         useFetch P true w
         = ({| data := None; loading := false;
               error := Some (new_Error msg) |}, w')
         /\ error_message (fst (useFetch P true w)) = Some msg).
Proof.
  intros rejected. split.
  - unfold fetchData. rewrite rejected. destruct e; reflexivity.
  - intros msg ->. unfold useFetch, fetchData. rewrite rejected.
    split; reflexivity.
Qed.

Lemma fetchData_failure_witness :
  useFetch (rejecting boom_error) true tt
  = ({| data := None; loading := false; error := Some (new_Error "boom") |},
     tt)
  /\ error_message (fst (fetchData (rejecting boom_object) (initial, tt)))
     = Some "An unknown error occurred".
Proof.
  split.
  - destruct (fetchData_failure (rejecting boom_error) initial tt tt
                boom_error eq_refl) as (_ & mounted).
    apply (mounted "boom" eq_refl).
  - destruct (fetchData_failure (rejecting boom_object) initial tt tt
                boom_object eq_refl) as (ended & _).
    rewrite ended. reflexivity.
Defined.

End FetchHook.

(* ================================================================= *)
(** * Further properties *)

(** ** The remote catalog client, further *)

Section CatalogClientFurther.

Import Api Uri Scenario.

Lemma decode_unreserved (c : ascii) (rest : string) :
  unreserved c = true ->
  percent_decode (String c rest) = String c (percent_decode rest).
Proof.
  intros kept. cbn [percent_decode].
  destruct (Ascii.eqb c "%") eqn:E; [ | reflexivity ].
  apply Ascii.eqb_eq in E. subst c. vm_compute in kept. discriminate kept.
Qed.

Lemma decode_percent_encode (c : ascii) (rest : string) :
  percent_decode (percent_encode c ++ rest) = String c (percent_decode rest).
Proof.
  destruct c as [[] [] [] [] [] [] [] []]; reflexivity.
Qed.

(** Decoding gives back the text that was encoded. *)
Lemma percent_decode_escape (s : string) :
  percent_decode (escape s) = s.
Proof.
  induction s as [ | c s IH ]; [ reflexivity | ].
  cbn [escape]. destruct (unreserved c) eqn:kept.
  - rewrite decode_unreserved by exact kept. now rewrite IH.
  - rewrite decode_percent_encode. now rewrite IH.
Qed.

Lemma escape_injective (s t : string) :
  escape s = escape t -> s = t.
Proof.
  intros same.
  rewrite <- (percent_decode_escape s),
          <- (percent_decode_escape t).
  now rewrite same.
Qed.

Lemma append_cancel_l (p a b : string) : p ++ a = p ++ b -> a = b.
Proof.
  induction p as [ | c p IH ]; cbn; [ tauto | ].
  intros [= same]. now apply IH.
Qed.

Lemma escape_nonempty (c : ascii) (rest : string) :
  escape (String c rest) <> "".
Proof.
  cbn [escape]. destruct (unreserved c); discriminate.
Qed.

(** When the transport itself fails on the request of the query (which
    presupposes a query that could be encoded), [fetchMovies] rethrows the
    very value [fetch] rejected with, after that one request and without a
    second attempt. *)
Theorem fetchMovies_transport_failure
  (query : string) (n : Net) (e : JsThrown) :
  has_lone_surrogate query = false ->
  server n (issued_request query n) = Throw e ->
  fetchMovies query n
  = (Throw e, after_request (issued_request query n) n).
Proof.
  intros well rejected. rewrite fetchMovies_unfold by exact well. cbn zeta.
  now rewrite rejected.
Qed.

Lemma fetchMovies_transport_failure_witness :
  fetchMovies "dune" (net_answering (Throw unplugged))
  = (Throw unplugged,
     after_request (issued_request "dune" (net_answering (Throw unplugged)))
                   (net_answering (Throw unplugged))).
Proof.
  apply (fetchMovies_transport_failure
           "dune" (net_answering (Throw unplugged)) unplugged);
    reflexivity.
Defined.

(** [fetchMovies] returns a value only when the transport answered with a
    success status and a body that decodes to something other than [null];
    the value is then the [results] property of the decoded body. *)
Theorem fetchMovies_returns_only_on_success
  (query : string) (n : Net) (v : JsValue) :
  fst (fetchMovies query n) = Normal v ->
  exists response data,
    server n (issued_request query n) = Normal response
    /\ (200 <= status response <= 299)%Z
    /\ json response = Normal data
    /\ data <> JNull
    /\ v = results_property data.
Proof.
  destruct (has_lone_surrogate query) eqn:well;
    [ rewrite fetchMovies_malformed by exact well; discriminate | ].
  rewrite fetchMovies_unfold by exact well. cbn zeta.
  destruct (server n (issued_request query n)) as [ response | e ];
    [ | discriminate ].
  destruct (ok response) eqn:success; cbn [negb]; [ | discriminate ].
  destruct (json response) as [ data | e ] eqn:decoded; [ | discriminate ].
  intros returned. exists response, data.
  split; [ reflexivity | ].
  split.
  { unfold ok in success. apply andb_true_iff in success.
    destruct success as (low & high).
    apply Z.leb_le in low. apply Z.leb_le in high. lia. }
  split; [ exact decoded | ].
  destruct data; cbn in returned; try discriminate returned;
    (split; [ discriminate | ]); cbn; congruence.
Qed.

Lemma fetchMovies_returns_only_on_success_witness :
  exists response data,
    server (net_answering (Normal discover_page))
           (issued_request "" (net_answering (Normal discover_page)))
    = Normal response
    /\ (200 <= status response <= 299)%Z
    /\ json response = Normal data
    /\ data <> JNull
    /\ Some (JArr [JNum "1"]) = results_property data.
Proof.
  apply (fetchMovies_returns_only_on_success
           "" (net_answering (Normal discover_page))
           (Some (JArr [JNum "1"]))).
  reflexivity.
Defined.

(** Every call whose query holds no unpaired surrogate issues its request
    with the header [accept: application/json] and a bearer credential read
    from the environment. A missing credential is not detected: the request
    is issued all the same, with the credential text [Bearer undefined]. *)
Theorem fetchMovies_credentials (query : string) (n : Net) :
  has_lone_surrogate query = false ->
  let req := issued_request query n in
  In req (sent (snd (fetchMovies query n)))
  /\ accept (request_headers req) = "application/json"
  /\ (forall key, env_key n = Some key ->
        Authorization (request_headers req) = "Bearer " ++ key)
  /\ (env_key n = None ->
        Authorization (request_headers req) = "Bearer undefined").
Proof.
  intros well. cbn zeta. split.
  - rewrite fetchMovies_sends_one by exact well.
    apply in_or_app. right. now left.
  - split; [ reflexivity | ].
    unfold issued_request. cbn. split.
    + intros key ->. reflexivity.
    + intros ->. reflexivity.
Qed.

Lemma fetchMovies_credentials_witness :
  In (issued_request "dune"
        {| env_key := None; server := fun _ => Throw unplugged;
           sent := [] |})
     (sent (snd (fetchMovies "dune"
                   {| env_key := None; server := fun _ => Throw unplugged;
                      sent := [] |})))
  /\ Authorization
       (request_headers
          (issued_request "dune"
             {| env_key := None; server := fun _ => Throw unplugged;
                sent := [] |}))
     = "Bearer undefined".
Proof.
  destruct (fetchMovies_credentials
              "dune"
              {| env_key := None; server := fun _ => Throw unplugged;
                 sent := [] |} eq_refl)
    as (issued & _ & _ & missing).
  split; [ exact issued | apply missing; reflexivity ].
Defined.

(** Two queries that lead to the same request URL are the same query: no
    two searches are confused with each other, and no search with the
    discovery request. *)
Theorem fetchMovies_url_injective (q1 q2 : string) (n1 n2 : Net) :
  url (issued_request q1 n1) = url (issued_request q2 n2) -> q1 = q2.
Proof.
  unfold issued_request, endpoint_of, search_endpoint, discover_endpoint.
  cbn [url BASE_URL TMDB_CONFIG].
  destruct q1 as [ | c1 r1 ], q2 as [ | c2 r2 ]; cbn [truthy].
  - reflexivity.
  - intros same. cbn in same. discriminate same.
  - intros same. cbn in same. discriminate same.
  - intros same.
    apply (append_cancel_l "https://api.themoviedb.org/3") in same.
    apply (append_cancel_l "/search/movie?query=") in same.
    now apply escape_injective.
Qed.

Lemma fetchMovies_url_injective_witness :
  url (issued_request "a b" (net_answering (Throw unplugged)))
  = "https://api.themoviedb.org/3/search/movie?query=a%20b"
  /\ "a b" = "a b".
Proof.
  split; [ reflexivity | ].
  apply (fetchMovies_url_injective
           "a b" "a b"
           (net_answering (Throw unplugged))
           (net_answering (Normal discover_page))).
  reflexivity.
Defined.

End CatalogClientFurther.

(** ** Trending, further *)

Section TrendingFurther.

Import Store Appwrite Scenario.

Lemma insert_desc_perm (key : Document -> Value) (x : Document)
  (l : list Document) :
  Permutation (insert_desc key x l) (x :: l).
Proof.
  induction l as [ | y l IH ]; cbn; [ reflexivity | ].
  destruct (value_leb (key y) (key x)); [ reflexivity | ].
  transitivity (y :: x :: l); [ now apply perm_skip | apply perm_swap ].
Qed.

Lemma sort_desc_perm (key : Document -> Value) (l : list Document) :
  Permutation (sort_desc key l) l.
Proof.
  induction l as [ | x l IH ]; cbn; [ reflexivity | ].
  transitivity (x :: sort_desc key l);
    [ apply insert_desc_perm | now apply perm_skip ].
Qed.

Lemma strongly_sorted_app {A} (R : A -> A -> Prop) (l1 l2 : list A) :
  StronglySorted R (l1 ++ l2) ->
  forall a b, In a l1 -> In b l2 -> R a b.
Proof.
  induction l1 as [ | x l1 IH ]; cbn; [ tauto | ].
  intros sorted a b [ -> | Ha ] Hb.
  - apply StronglySorted_inv in sorted. destruct sorted as (_ & all).
    rewrite Forall_forall in all. apply all. apply in_or_app. now right.
  - apply StronglySorted_inv in sorted. destruct sorted as (sorted & _).
    now apply IH.
Qed.

Lemma sort_by_count_sorted (l : list Document) :
  StronglySorted count_ge (sort_desc (attribute_value A_count) l).
Proof.
  apply Sorted_StronglySorted.
  - intros a b c. apply count_ge_trans.
  - apply (sorted_weaken (descending (attribute_value A_count)));
      [ exact descending_count | apply sort_desc_sorted ].
Qed.

(** [getTrendingMovies] only reads: it leaves the collection as it is,
    uses one remote call, and writes to the console exactly when it
    returns [undefined]. *)
Theorem getTrendingMovies_read_only (w : World) :
  let w' := snd (getTrendingMovies w) in
  collection w' = collection w
  /\ upcoming w' = tl (upcoming w)
  /\ ((exists entries,
          fst (getTrendingMovies w) = Normal (Some entries)
          /\ console w' = console w)
      \/ (exists e,
             fst (getTrendingMovies w) = Normal None
             /\ console w'
                = (console w ++ [{| label := None; logged := e |}])%list)).
Proof.
  cbn zeta. open_getTrendingMovies. rewrite select_trending.
  destruct (upcoming w) as [ | [ | e | e ] rest ]; cbn;
    (split; [ reflexivity | split; [ reflexivity | ] ]);
    first [ left; eexists; split; reflexivity
          | right; eexists; split; reflexivity ].
Qed.

(** When the store serves the call, [getTrendingMovies] returns the
    documents with the highest counters: the collection is, up to order,
    the returned entries followed by documents none of which has a counter
    above the counter of a returned entry; and all documents are returned
    when there are 5 or fewer. *)
Theorem getTrendingMovies_highest_counts (w : World) :
  served_next 1 w = true ->
  exists entries rest,
    fst (getTrendingMovies w) = Normal (Some entries)
    /\ Permutation (entries ++ rest) (collection w)
    /\ List.length entries = Nat.min 5 (List.length (collection w))
    /\ forall a b, In a entries -> In b rest -> count_ge a b.
Proof.
  intros served.
  exists (firstn 5 (sort_desc (attribute_value A_count) (collection w))),
         (skipn 5 (sort_desc (attribute_value A_count) (collection w))).
  split; [ now apply getTrendingMovies_served | ].
  split; [ rewrite firstn_skipn; apply sort_desc_perm | ].
  split.
  - rewrite length_firstn.
    now rewrite (Permutation_length (sort_desc_perm _ (collection w))).
  - apply strongly_sorted_app. rewrite firstn_skipn.
    apply sort_by_count_sorted.
Qed.

Lemma getTrendingMovies_highest_counts_witness :
  exists entries rest,
    fst (getTrendingMovies (calm seven_records)) = Normal (Some entries)
    /\ Permutation (entries ++ rest) seven_records
    /\ List.length entries = 5
    /\ forall a b, In a entries -> In b rest -> count_ge a b.
Proof.
  apply (getTrendingMovies_highest_counts (calm seven_records)).
  reflexivity.
Defined.

(** In a store with unique identities the entries [getTrendingMovies]
    returns have distinct identities, the keys the home screen gives to
    the cards of the trending list. *)
Theorem getTrendingMovies_keys_distinct
  (w : World) (entries : list Document) :
  ids_unique (collection w) ->
  fst (getTrendingMovies w) = Normal (Some entries) ->
  NoDup (map dollar_id entries).
Proof.
  intros unique returned.
  apply getTrendingMovies_result in returned. subst entries.
  apply (NoDup_app_remove_r _
           (map dollar_id
                (skipn 5 (sort_desc (attribute_value A_count)
                                    (collection w))))).
  rewrite <- map_app, firstn_skipn.
  apply (Permutation_NoDup
           (Permutation_map dollar_id
              (Permutation_sym (sort_desc_perm _ (collection w))))).
  exact unique.
Qed.

Lemma getTrendingMovies_keys_distinct_witness :
  NoDup (map dollar_id
             (firstn 5 (sort_desc (attribute_value A_count) seven_records))).
Proof.
  apply (getTrendingMovies_keys_distinct (calm seven_records)).
  - unfold ids_unique. vm_compute.
    repeat (constructor; [ cbn; intuition discriminate | ]). constructor.
  - reflexivity.
Defined.

End TrendingFurther.

(** ** Search telemetry, further *)

Section TelemetryFurther.

Import Store Appwrite Scenario.

Lemma served_next_step (k : nat) (w : World) :
  served_next (2 + k) w = true ->
  served_next 2 w = true
  /\ forall docs log,
       served_next k {| collection := docs;
                        upcoming := skipn 2 (upcoming w);
                        console := log |} = true.
Proof.
  unfold served_next. cbn [upcoming].
  destruct (upcoming w) as [ | o1 [ | o2 l ] ].
  - destruct k; cbn; auto.
  - cbn. destruct k; cbn; rewrite andb_true_r; auto.
  - cbn [plus firstn skipn forallb].
    destruct o1, o2; cbn; try discriminate; auto.
Qed.

Lemma same_but_count_trans (a b c : Document) :
  same_but_count a b -> same_but_count b c -> same_but_count a c.
Proof.
  unfold same_but_count. intuition congruence.
Qed.

Lemma with_count_other (i : nat) (c : Z) (l : list Document) :
  (forall x, In x l -> dollar_id x <> i) -> with_count i c l = l.
Proof.
  unfold with_count, has_id. intros other.
  rewrite <- (map_id l) at 2. apply map_ext_in. intros x Hx.
  destruct (dollar_id x =? i)%nat eqn:E; [ | reflexivity ].
  apply Nat.eqb_eq in E. now elim (other x Hx).
Qed.

Lemma NoDup_ids_filter (p : Document -> bool) (l : list Document) :
  NoDup (map dollar_id l) -> NoDup (map dollar_id (filter p l)).
Proof.
  induction l as [ | x l IH ]; cbn; [ tauto | ].
  intros nodup. inversion nodup as [ | ? ? fresh nodup' ]; subst.
  destruct (p x); cbn; [ | now apply IH ].
  constructor; [ | now apply IH ].
  intros Hin. apply fresh. apply in_map_iff in Hin.
  destruct Hin as (y & same & Hy). apply filter_In in Hy.
  apply in_map_iff. exists y. tauto.
Qed.


(** The searches that follow the first one: each adds 1 to the counter of
    the record and leaves the rest of the record as it is. *)
Lemma searches_of_known_term (t : string) (others : list Movie.t) :
  forall (w : World) (d : Document) (c : Z),
    served_next (2 * List.length others) w = true ->
    records_for t (collection w) = [d] ->
    count d = Some c ->
    (- 2 ^ 53 <= c)%Z ->
    (c + Z.of_nat (List.length others) <= 2 ^ 53)%Z ->
    exists d',
      records_for t (collection (perform_all (searches t others) w)) = [d']
      /\ count d' = Some (c + Z.of_nat (List.length others))%Z
      /\ same_but_count d d'.
Proof.
  induction others as [ | m others IH ];
    intros w d c served found counted low high.
  - exists d. cbn. rewrite Z.add_0_r.
    unfold same_but_count. tauto.
  - replace (2 * List.length (m :: others))
      with (2 + 2 * List.length others) in served by (cbn; lia).
    apply served_next_step in served. destruct served as (now_ & later).
    unfold searches, perform_all. cbn [map fold_left perform].
    rewrite (updateSearchCount_served_found t m w d [] now_ found).
    cbn [snd].
    destruct (IH {| collection := with_count (dollar_id d)
                                    (plus_1 (or_0 (count d))) (collection w);
                    upcoming := skipn 2 (upcoming w);
                    console := console w |}
                 (apply_partial (only_count (plus_1 (or_0 (count d)))) d)
                 (c + 1)%Z)
      as (d' & only & total & kept).
    + apply later.
    + cbn [collection]. rewrite records_for_with_count, found.
      unfold with_count, has_id. cbn [map]. now rewrite Nat.eqb_refl.
    + cbn [apply_partial only_count count Partial.count].
      rewrite counted, or_0_Some, plus_1_exact; [ reflexivity | ].
      cbn [List.length] in high. lia.
    + lia.
    + cbn [List.length] in high. lia.
    + exists d'. split; [ exact only | ].
      split.
      * rewrite total. f_equal. cbn [List.length]. lia.
      * apply (same_but_count_trans _
                 (apply_partial (only_count (plus_1 (or_0 (count d)))) d));
          [ unfold same_but_count; cbn; tauto | exact kept ].
Qed.

(** A term without record, searched [n] times in a row ([n] up to 2^53,
    where the counter stays exact) with all calls served, ends with exactly
    one record; its counter is [n], and its movie identifier, title and
    poster are those of the subject of the first search, whatever the
    subjects of the later ones. *)
Theorem updateSearchCount_repeated
  (t : string) (first : Movie.t) (others : list Movie.t) (w : World) :
  served_next (2 * List.length (first :: others)) w = true ->
  records_for t (collection w) = [] ->
  (Z.of_nat (List.length (first :: others)) <= 2 ^ 53)%Z ->
  exists d,
    records_for t
      (collection (perform_all (searches t (first :: others)) w)) = [d]
    /\ count d = Some (Z.of_nat (List.length (first :: others)))
    /\ movie_id d = Movie.id first
    /\ title d = Movie.title first
    /\ poster_url d = poster_url_of first.
Proof.
  intros served absent bounded.
  replace (2 * List.length (first :: others))
    with (2 + 2 * List.length others) in served by (cbn; lia).
  apply served_next_step in served. destruct served as (now_ & later).
  unfold searches, perform_all. cbn [map fold_left perform].
  rewrite (updateSearchCount_served_new t first w now_ absent). cbn [snd].
  destruct (searches_of_known_term t others
              {| collection :=
                   (collection w
                      ++ [new_document (fresh_id (collection w))
                            (first_search t first)])%list;
                 upcoming := skipn 2 (upcoming w);
                 console := console w |}
              (new_document (fresh_id (collection w)) (first_search t first))
              1%Z)
    as (d & only & total & _ & _ & subject & named & poster).
  - apply later.
  - cbn [collection]. rewrite records_for_app, absent. unfold records_for.
    cbn [filter new_document first_search searchTerm Data.searchTerm app].
    now rewrite String.eqb_refl.
  - reflexivity.
  - vm_compute. discriminate.
  - cbn [List.length] in bounded. lia.
  - exists d. split; [ exact only | ].
    split; [ rewrite total; f_equal; cbn [List.length]; lia | ].
    now rewrite subject, named, poster.
Qed.

Lemma updateSearchCount_repeated_witness :
  exists d,
    records_for "Avatar"
      (collection (perform_all (searches "Avatar" [avatar; titanic; avatar])
                               (calm []))) = [d]
    /\ count d = Some 3%Z
    /\ movie_id d = 19995%Z
    /\ title d = "Avatar"
    /\ poster_url d = Some "https://image.tmdb.org/t/p/w500/avatar.jpg".
Proof.
  apply (updateSearchCount_repeated "Avatar" avatar [titanic; avatar]
           (calm []));
    try reflexivity.
  vm_compute. discriminate.
Defined.

(** In a store with unique identities, recording a search of one term
    leaves the records of every other term as they are, whatever happens
    to the remote calls. *)
Theorem updateSearchCount_other_terms
  (t t' : string) (m : Movie.t) (w : World) :
  ids_unique (collection w) ->
  t' <> t ->
  records_for t' (collection (snd (updateSearchCount t m w)))
  = records_for t' (collection w).
Proof.
  intros unique other.
  destruct (updateSearchCount_cases t m w)
    as (w' & run & [ same | [ (d & rest & first & written) | (none & grown) ] ]);
    rewrite run; cbn [snd].
  - now rewrite same.
  - rewrite written, records_for_with_count. apply with_count_other.
    intros x Hx same_id. apply records_for_In in Hx. destruct Hx as (Hx & mine).
    assert (Hd : In d (records_for t (collection w)))
      by (rewrite first; now left).
    apply records_for_In in Hd. destruct Hd as (Hd & theirs).
    assert (x = d) by (now apply (ids_unique_same (collection w))).
    subst x. congruence.
  - rewrite grown, records_for_app. unfold records_for at 2.
    cbn [filter new_document first_search searchTerm Data.searchTerm].
    destruct (String.eqb t t') eqn:E.
    + apply String.eqb_eq in E. now elim other.
    + apply app_nil_r.
Qed.

Lemma updateSearchCount_other_terms_witness :
  records_for "alien"
    (collection (snd (updateSearchCount "dune" avatar (calm raced))))
  = [record 1 "alien" (Some 4%Z)].
Proof.
  rewrite (updateSearchCount_other_terms "dune" "alien" avatar (calm raced)).
  - reflexivity.
  - unfold ids_unique. cbn.
    repeat (constructor; [ cbn; intuition discriminate | ]). constructor.
  - discriminate.
Defined.

(** When a term has several records, left by overlapping calls, a served
    search writes the counter of the first one in store order only, adding
    1 to it where the sum is exact (a counter from -2^53 to 2^53 - 1): the
    other records of the term stay as they are and none is merged or
    removed. *)
Theorem updateSearchCount_first_of_duplicates
  (t : string) (m : Movie.t) (w : World) (d : Document)
  (rest : list Document) :
  served_next 2 w = true ->
  ids_unique (collection w) ->
  records_for t (collection w) = d :: rest ->
  (forall c, count d = Some c -> - 2 ^ 53 <= c < 2 ^ 53)%Z ->
  exists d',
    records_for t (collection (snd (updateSearchCount t m w))) = d' :: rest
    /\ same_but_count d d'
    /\ count d' = Some (match count d with
                        | Some c => c + 1
                        | None => 1
                        end)%Z.
Proof.
  intros served unique found safe.
  rewrite (updateSearchCount_served_found t m w d rest served found).
  cbn [snd collection]. rewrite records_for_with_count, found.
  assert (distinct : NoDup (map dollar_id (d :: rest))).
  { rewrite <- found. now apply NoDup_ids_filter. }
  inversion distinct as [ | ? ? fresh _ ]; subst.
  exists (apply_partial (only_count (plus_1 (or_0 (count d)))) d).
  split.
  - change (with_count (dollar_id d) (plus_1 (or_0 (count d))) (d :: rest))
      with ((if has_id (dollar_id d) d
             then apply_partial (only_count (plus_1 (or_0 (count d)))) d
             else d)
              :: with_count (dollar_id d) (plus_1 (or_0 (count d))) rest).
    unfold has_id at 1. rewrite Nat.eqb_refl. f_equal.
    apply with_count_other. intros x Hx same_id. apply fresh.
    rewrite <- same_id. now apply in_map.
  - split; [ unfold same_but_count; cbn; tauto | ].
    cbn [apply_partial only_count count Partial.count].
    destruct (count d) as [ c | ]; [ | reflexivity ].
    rewrite or_0_Some, plus_1_exact by (now apply safe). reflexivity.
Qed.

Lemma updateSearchCount_first_of_duplicates_witness :
  exists d',
    records_for "dune"
      (collection (snd (updateSearchCount "dune" avatar (calm raced))))
    = [d'; record 3 "dune" (Some 1%Z)]
    /\ same_but_count (record 2 "dune" (Some 2%Z)) d'
    /\ count d' = Some 3%Z.
Proof.
  apply (updateSearchCount_first_of_duplicates
           "dune" avatar (calm raced) (record 2 "dune" (Some 2%Z))
           [record 3 "dune" (Some 1%Z)]).
  - reflexivity.
  - unfold ids_unique. cbn.
    repeat (constructor; [ cbn; intuition discriminate | ]). constructor.
  - reflexivity.
  - intros c known. injection known as <-.
    split; [ vm_compute; discriminate | reflexivity ].
Defined.

End TelemetryFurther.

(** ** The store under failures and over time *)

Section StoreFurther.

Import Store Appwrite Scenario.

Lemma with_count_keeps (i : nat) (c : Z) (l : list Document) (d : Document) :
  In d l -> exists d', In d' (with_count i c l) /\ same_but_count d d'.
Proof.
  intros Hd. unfold with_count.
  exists (if has_id i d then apply_partial (only_count c) d else d). split.
  - apply (in_map (fun x => if has_id i x
                            then apply_partial (only_count c) x else x)).
    exact Hd.
  - destruct (has_id i d); unfold same_but_count; cbn; tauto.
Qed.

Lemma perform_keeps (op : Operation) (w : World) (d : Document) :
  In d (collection w) ->
  exists d', In d' (collection (perform op w)) /\ same_but_count d d'.
Proof.
  intros Hd.
  destruct (perform_cases op w)
    as [ -> | [ (q & d0 & rest & _ & ->) | (q & m & _ & ->) ] ].
  - exists d. unfold same_but_count. tauto.
  - now apply with_count_keeps.
  - exists d. split; [ apply in_or_app; now left | ].
    unfold same_but_count. tauto.
Qed.

Lemma perform_length (op : Operation) (w : World) :
  List.length (collection w) <= List.length (collection (perform op w))
  /\ List.length (collection (perform op w))
     <= List.length (collection w) + recordings [op].
Proof.
  destruct op as [ q m | ].
  - destruct (perform_cases (RecordSearch q m) w)
      as [ -> | [ (q' & d0 & rest & _ & ->) | (q' & m' & _ & ->) ] ].
    + cbn. lia.
    + unfold with_count. rewrite length_map. cbn. lia.
    + rewrite length_app. cbn. lia.
  - cbn [perform]. rewrite getTrendingMovies_collection. cbn. lia.
Qed.

(** No sequence of operations of the telemetry core deletes a record or
    rewrites anything but a counter: every record of the store is still
    there afterwards with its identity, search term, movie identifier,
    title and poster URL, and the store has grown by at most one record
    for each recorded search. *)
Theorem telemetry_never_deletes (ops : list Operation) (w : World) :
  (forall d, In d (collection w) ->
             exists d', In d' (collection (perform_all ops w))
                        /\ same_but_count d d')
  /\ List.length (collection w)
     <= List.length (collection (perform_all ops w))
  /\ List.length (collection (perform_all ops w))
     <= List.length (collection w) + recordings ops.
Proof.
  unfold perform_all. revert w.
  induction ops as [ | op ops IH ]; intros w; cbn [fold_left].
  - split; [ | cbn; lia ].
    intros d Hd. exists d. unfold same_but_count. tauto.
  - destruct (IH (perform op w)) as (kept & lower & upper).
    destruct (perform_length op w) as (lower1 & upper1).
    split; [ | split ].
    + intros d Hd.
      destruct (perform_keeps op w d Hd) as (d1 & Hd1 & same1).
      destruct (kept d1 Hd1) as (d2 & Hd2 & same2).
      exists d2. split; [ exact Hd2 | ].
      unfold same_but_count in *. intuition congruence.
    + lia.
    + assert (recordings (op :: ops) = recordings [op] + recordings ops)
        by (unfold recordings; destruct op; reflexivity).
      lia.
Qed.

Lemma telemetry_never_deletes_witness :
  exists d',
    In d' (collection
             (perform_all [RecordSearch "dune" avatar; GetTrending;
                           RecordSearch "solaris" titanic]
                          (troubled [Served; ReplyLost timeout] raced)))
    /\ same_but_count (record 2 "dune" (Some 2%Z)) d'.
Proof.
  destruct (telemetry_never_deletes
              [RecordSearch "dune" avatar; GetTrending;
               RecordSearch "solaris" titanic]
              (troubled [Served; ReplyLost timeout] raced))
    as (kept & _).
  apply kept. cbn. tauto.
Defined.

(** A failure of the listing call ends [updateSearchCount] at once: the
    collection is as it was, the failure is logged and no write is
    attempted. A refused write, too, leaves the collection as it was. *)
Theorem updateSearchCount_failure_leaves_store
  (q : string) (m : Movie.t) (w : World) (rest : list Outcome)
  (e : JsThrown) :
  (forall o, fails_with o e ->
             upcoming w = o :: rest ->
             snd (updateSearchCount q m w)
             = {| collection := collection w;
                  upcoming := rest;
                  console := (console w ++ [search_failure e])%list |})
  /\ (upcoming w = Served :: Refused e :: rest ->
      snd (updateSearchCount q m w)
      = {| collection := collection w;
           upcoming := rest;
           console := (console w ++ [search_failure e])%list |}).
Proof.
  split.
  - intros o failing next. open_updateSearchCount. rewrite next.
    destruct failing as [ -> | -> ]; reflexivity.
  - intros next. open_updateSearchCount. rewrite next, select_by_term.
    destruct (records_for q (collection w)) as [ | d tl ]; read_listing;
      reflexivity.
Qed.

Lemma updateSearchCount_failure_leaves_store_witness :
  snd (updateSearchCount "dune" avatar
         (troubled [ReplyLost timeout; Served] raced))
  = {| collection := raced; upcoming := [Served];
       console := [search_failure timeout] |}
  /\ snd (updateSearchCount "dune" avatar
            (troubled [Served; Refused timeout] raced))
     = {| collection := raced; upcoming := [];
          console := [search_failure timeout] |}.
Proof.
  split.
  - destruct (updateSearchCount_failure_leaves_store
                "dune" avatar (troubled [ReplyLost timeout; Served] raced)
                [Served] timeout) as (listing & _).
    apply (listing (ReplyLost timeout)); [ now right | reflexivity ].
  - destruct (updateSearchCount_failure_leaves_store
                "dune" avatar (troubled [Served; Refused timeout] raced)
                [] timeout) as (_ & writing).
    apply writing. reflexivity.
Defined.



End StoreFurther.

(** ** The fetch hook, further *)

Section FetchHookFurther.

Import UseFetch Scenario.

(** A fetch that succeeds ends, from any earlier state, with the result as
    data, [loading] false and no error: a refetch that succeeds clears the
    error of an earlier failure. *)
Theorem fetchData_success {T W : Type}
  (P : Async W T) (s : FetchState T) (w w' : W) (v : T) :
  P w = (Normal v, w') ->
  fetchData P (s, w)
  = ({| data := Some v; loading := false; error := None |}, w').
Proof.
  intros resolved. unfold fetchData. now rewrite resolved.
Qed.

Lemma fetchData_success_witness :
  fetchData (resolving 7)
    ({| data := None; loading := false;
        error := Some (new_Error "boom") |}, tt)
  = ({| data := Some 7; loading := false; error := None |}, tt).
Proof.
  apply (fetchData_success (resolving 7) _ tt tt 7). reflexivity.
Defined.

(** The hook around its mount effect. Without automatic start the effect
    starts nothing: the hook stays in its initial state and the producer
    is not run. With automatic start the hook is loading, data and error
    null, from the effect until the producer settles; at settlement
    [loading] is false and either the data is what the producer resolved
    to (whatever that is, [undefined] included) and the error is null, or
    the data is still null and the error is set. *)
Theorem useFetch_settled {T W : Type} (P : Async W T) (w : W) :
  useFetch P false w = (initial, w)
  /\ @started T false = initial
  /\ @started T true = {| data := None; loading := true; error := None |}
  /\ (forall v w',
         P w = (Normal v, w') ->
         useFetch P true w
         = ({| data := Some v; loading := false; error := None |}, w'))
  /\ (forall e w',
         P w = (Throw e, w') ->
         exists err,
           useFetch P true w
           = ({| data := None; loading := false; error := Some err |}, w')).
Proof.
  unfold useFetch, fetchData. repeat split.
  - intros v w' ->. reflexivity.
  - intros e w' ->. eexists. reflexivity.
Qed.

Lemma useFetch_settled_witness :
  useFetch Appwrite.getTrendingMovies true
    (Appwrite.troubled [Store.Refused Appwrite.timeout] raced)
  = ({| data := Some None; loading := false; error := None |},
     {| Store.collection := raced;
        Store.upcoming := [];
        Store.console := [{| Store.label := None;
                             Store.logged := Appwrite.timeout |}] |})
  /\ (exists err,
        useFetch (rejecting boom_object) true tt
        = ({| data := None; loading := false; error := Some err |}, tt)).
Proof.
  destruct (useFetch_settled Appwrite.getTrendingMovies
              (Appwrite.troubled [Store.Refused Appwrite.timeout] raced))
    as (_ & _ & _ & resolved & _).
  destruct (useFetch_settled (rejecting boom_object) tt)
    as (_ & _ & _ & _ & rejected).
  split.
  - apply resolved. reflexivity.
  - apply (rejected boom_object). reflexivity.
Defined.

(** [reset] gives the initial state from any state, and once is as good as
    twice; but it does not cancel a fetch in flight: when that fetch
    settles after the reset, its result or its error is written over the
    state [reset] left. *)
Theorem reset_does_not_cancel {T : Type} (s : FetchState T) :
  reset s = initial
  /\ reset (reset s) = reset s
  /\ (forall v : T,
         fetchData_settle (Normal v) (reset (fetchData_begin s))
         = {| data := Some v; loading := false; error := None |})
  /\ (forall e : JsThrown,
         error (fetchData_settle (Throw e) (reset (fetchData_begin s)))
         <> None).
Proof.
  repeat split. intros e. cbn. discriminate.
Qed.

(** Two fetches that overlap are not coordinated. [loading] turns false
    as soon as the first of them settles, while the other is still in
    flight; and when one fails and the other succeeds, in either order of
    settlement, the hook ends with both the data and the error set. *)
Theorem overlapping_fetches {T : Type}
  (s : FetchState T) (err : JsError) (v : T) :
  let both := fetchData_begin (fetchData_begin s) in
  loading both = true
  /\ loading (fetchData_settle (Throw (IsError err)) both) = false
  /\ loading (fetchData_settle (Normal v) both) = false
  /\ fetchData_settle (Normal v)
       (fetchData_settle (Throw (IsError err)) both)
     = {| data := Some v; loading := false; error := Some err |}
  /\ fetchData_settle (Throw (IsError err))
       (fetchData_settle (Normal v) both)
     = {| data := Some v; loading := false; error := Some err |}.
Proof.
  repeat split.
Qed.

End FetchHookFurther.

(** ** The home screen *)

Section HomeScreen.

Import Store Appwrite UseFetch Home Scenario.

Lemma getTrendingMovies_normal (w : World) :
  exists r w', getTrendingMovies w = (Normal r, w').
Proof.
  open_getTrendingMovies. rewrite select_trending.
  destruct (upcoming w) as [ | [ | e | e ] rest ];
    eexists; eexists; reflexivity.
Qed.

Lemma getTrendingMovies_unserved (w : World) :
  served_next 1 w = false -> fst (getTrendingMovies w) = Normal None.
Proof.
  unfold served_next. open_getTrendingMovies. rewrite select_trending.
  destruct (upcoming w) as [ | [ | e | e ] rest ]; cbn;
    solve [ discriminate | reflexivity ].
Qed.

(** The home screen over time. Before the mount effects it shows the
    content, with no trending section and no movies. From the mount
    effects on, and as long as one of the two fetches is in flight, it
    shows the activity indicator. Once both have settled it shows the error
    text exactly when [fetchMovies] failed, with the message of the thrown
    [Error] (nothing when that message is empty) or the fallback message
    for another thrown value. A failure of the trending store never leads
    to the error text: the content is shown, without the trending
    section. *)
Theorem Index_mounted_screen (w : World) (n : Api.Net) :
  Index_render initial initial = Content None None
  /\ Index_render (started true) (started true) = ActivityIndicator
  /\ (forall trending movies,
         loading trending = true \/ loading movies = true ->
         Index_render trending movies = ActivityIndicator)
  /\ (forall v,
         fst (Api.fetchMovies "" n) = Normal v ->
         Index_mounted w n
         = Content (match fst (getTrendingMovies w) with
                    | Normal (Some entries) => Some entries
                    | _ => None
                    end)
                   (Some v))
  /\ (forall e,
         fst (Api.fetchMovies "" n) = Throw e ->
         Index_mounted w n
         = ErrorText (match e with
                      | IsError err =>
                          if truthy (message err) then Some (message err)
                          else None
                      | NotError _ => Some "An unknown error occurred"
                      end)).
Proof.
  split; [ reflexivity | ]. split; [ reflexivity | ].
  split.
  { intros trending movies [ busy | busy ]; unfold Index_render;
      rewrite busy; [ now rewrite orb_true_r | reflexivity ]. }
  unfold Index_mounted, Index_mount, useFetch, fetchData.
  destruct (getTrendingMovies_normal w) as (r & w' & trending).
  rewrite trending. cbn [fst].
  destruct (Api.fetchMovies "" n) as [ [ v | e ] n' ]; cbn [fst].
  - split; [ | discriminate ].
    intros v' [= <-]. destruct r; reflexivity.
  - split; [ discriminate | ].
    intros e' [= <-]. destruct e as [ err | x ]; cbn.
    + unfold or_else. cbn. destruct (truthy (message err)); reflexivity.
    + reflexivity.
Qed.

Lemma Index_mounted_screen_witness :
  Index_mounted (troubled [Refused timeout] raced)
                (Api.net_answering (Normal discover_page))
  = Content None (Some (Some (Api.JArr [Api.JNum "1"])))
  /\ Index_mounted (calm raced) (Api.net_answering (Throw unplugged))
     = ErrorText (Some "Network request failed")
  /\ Index_render (started true)
       (fst (useFetch (Api.fetchMovies "")  true
               (Api.net_answering (Normal discover_page))))
     = ActivityIndicator.
Proof.
  destruct (Index_mounted_screen (troubled [Refused timeout] raced)
              (Api.net_answering (Normal discover_page)))
    as (_ & _ & busy & shown & _).
  destruct (Index_mounted_screen (calm raced)
              (Api.net_answering (Throw unplugged)))
    as (_ & _ & _ & _ & failed).
  split; [ | split ].
  - apply (shown (Some (Api.JArr [Api.JNum "1"]))). reflexivity.
  - apply (failed unplugged). reflexivity.
  - apply busy. left. reflexivity.
Defined.

(** When the catalog answers the discovery request with a status that is
    not a success status, the home screen shows the error text with the
    message [Failed to fetch movies: ] followed by the status text: the
    message of the client reaches the screen unchanged through the hook. *)
Theorem Index_mounted_bad_status
  (w : World) (n : Api.Net) (response : Api.Response) :
  Api.server n (Api.issued_request "" n) = Normal response ->
  Api.ok response = false ->
  Index_mounted w n
  = ErrorText (Some ("Failed to fetch movies: " ++ Api.statusText response)).
Proof.
  intros answered failure.
  unfold Index_mounted, Index_mount, useFetch, fetchData.
  destruct (getTrendingMovies_normal w) as (r & w' & trending).
  rewrite trending.
  rewrite fetchMovies_unfold by reflexivity. cbn zeta.
  rewrite answered, failure.
  destruct r; reflexivity.
Qed.

Lemma Index_mounted_bad_status_witness :
  Index_mounted (calm raced)
                (Api.net_answering (Normal Api.not_found_response))
  = ErrorText (Some "Failed to fetch movies: Not Found").
Proof.
  apply (Index_mounted_bad_status (calm raced)
           (Api.net_answering (Normal Api.not_found_response))
           Api.not_found_response);
    reflexivity.
Defined.

(** With the movies fetched, the trending section of the home screen is
    rendered exactly when the store served the trending call: then it
    lists the up to 5 top entries, also when there are none (an empty
    list, under its heading); when the call failed the section is left
    out. *)
Theorem Index_trending_section
  (w : World) (n : Api.Net) (v : Api.JsValue) :
  fst (Api.fetchMovies "" n) = Normal v ->
  (served_next 1 w = true ->
   Index_mounted w n
   = Content (Some (firstn 5 (sort_desc (attribute_value A_count)
                                        (collection w))))
             (Some v))
  /\ (served_next 1 w = false -> Index_mounted w n = Content None (Some v)).
Proof.
  intros fetched.
  unfold Index_mounted, Index_mount, useFetch, fetchData.
  destruct (Api.fetchMovies "" n) as [ r n' ]. cbn [fst] in fetched.
  subst r. split.
  - intros served. apply getTrendingMovies_served in served.
    destruct (getTrendingMovies w) as [ r w' ]. cbn [fst] in served.
    subst r. reflexivity.
  - intros failed. apply getTrendingMovies_unserved in failed.
    destruct (getTrendingMovies w) as [ r w' ]. cbn [fst] in failed.
    subst r. reflexivity.
Qed.

Lemma Index_trending_section_witness :
  Index_mounted (calm []) (Api.net_answering (Normal discover_page))
  = Content (Some []) (Some (Some (Api.JArr [Api.JNum "1"])))
  /\ Index_mounted (troubled [ReplyLost timeout] raced)
                   (Api.net_answering (Normal discover_page))
     = Content None (Some (Some (Api.JArr [Api.JNum "1"]))).
Proof.
  destruct (Index_trending_section (calm [])
              (Api.net_answering (Normal discover_page))
              (Some (Api.JArr [Api.JNum "1"])) eq_refl) as (shown & _).
  destruct (Index_trending_section (troubled [ReplyLost timeout] raced)
              (Api.net_answering (Normal discover_page))
              (Some (Api.JArr [Api.JNum "1"])) eq_refl) as (_ & hidden).
  split; [ apply shown | apply hidden ]; reflexivity.
Defined.

End HomeScreen.
